(** * paint-news-app: the article collection pipeline of [scripts/collect_news.py]

    A shallow embedding of the collector ([_is_valid_article],
    [_fetch_articles_for_query], [_deduplicate_articles], [collect_news])
    together with the parts of the Python library it calls
    ([str.strip], [str.rstrip], [str.lower], [difflib.SequenceMatcher],
    [list.sort], aware and naive [datetime] values), followed by the
    properties of the specification that concern it. *)

From Stdlib Require Import ZArith QArith Ascii String List Lia Permutation Sorted.
From stdpp Require Import base decidable option list gmap strings sorting.

Local Open Scope string_scope.
Local Open Scope list_scope.
Local Open Scope nat_scope.

(** ** Python strings

    A Python [str] is modelled by a Rocq [string] whose characters are the
    code points U+0000..U+00FF. *)
Module PyStr.

(** [str.isspace] on a single code point below U+0100. *)
Definition isspace (c : ascii) : bool :=
  let n := nat_of_ascii c in
  ((9 <=? n)%nat && (n <=? 13)%nat) || ((28 <=? n)%nat && (n <=? 32)%nat)
  || (n =? 133)%nat || (n =? 160)%nat.

(** [str.lower] on a single code point below U+0100: A-Z, and the
    Latin-1 capitals U+00C0..U+00DE except the multiplication sign. *)
Definition lower_char (c : ascii) : ascii :=
  let n := nat_of_ascii c in
  if ((65 <=? n)%nat && (n <=? 90)%nat)
     || ((192 <=? n)%nat && (n <=? 222)%nat && negb (n =? 215)%nat)
  then ascii_of_nat (n + 32) else c.

Fixpoint lower (s : string) : string :=
  match s with
  | EmptyString => EmptyString
  | String c s' => String (lower_char c) (lower s')
  end.

(** [s.lstrip()] *)
Fixpoint lstrip (s : string) : string :=
  match s with
  | EmptyString => EmptyString
  | String c s' => if isspace c then lstrip s' else s
  end.

(** [s.rstrip(chars)], for a set of characters given by its membership
    test. *)
Fixpoint rstrip_chars (p : ascii -> bool) (s : string) : string :=
  match s with
  | EmptyString => EmptyString
  | String c s' =>
      match rstrip_chars p s' with
      | EmptyString => if p c then EmptyString else String c EmptyString
      | r => String c r
      end
  end.

(** [s.rstrip()] *)
Definition rstrip (s : string) : string := rstrip_chars isspace s.

(** [s.strip()] *)
Definition strip (s : string) : string := rstrip (lstrip s).

(** [s.rstrip("/")] *)
Definition rstrip_slash (s : string) : string :=
  rstrip_chars (fun c => Ascii.eqb c "/"%char) s.

(** Truth value of a string: [bool(s)], false exactly for the empty
    string. *)
Definition truthy (s : string) : bool :=
  match s with EmptyString => false | _ => true end.

(** Every character of [s] is white space (the empty string included). *)
Fixpoint all_space (s : string) : bool :=
  match s with
  | EmptyString => true
  | String c s' => isspace c && all_space s'
  end.

End PyStr.

(** ** [difflib.SequenceMatcher(None, a, b)]

    The two sequences are lists of characters indexed from 0.  No junk
    predicate is given, so [bjunk] is empty; [autojunk] keeps its default
    [True], so in a [b] of 200 elements or more the elements occurring more
    than [n // 100 + 1] times are "popular" and are purged from [b2j]. *)
Module Difflib.

Definition seqT := list ascii.

Definition count_occ_char (c : ascii) (b : seqT) : nat :=
  length (filter (fun x => Ascii.eqb x c = true) b).

(** [popular] of [__chain_b]. *)
Definition popular (b : seqT) (c : ascii) : bool :=
  let n := length b in
  (200 <=? n)%nat && (n / 100 + 1 <? count_occ_char c b)%nat.

(** Positions of [c] in [b], in increasing order, counting from [i]. *)
Fixpoint indices_from (i : nat) (c : ascii) (b : seqT) : list nat :=
  match b with
  | [] => []
  | x :: b' =>
      if Ascii.eqb x c then i :: indices_from (S i) c b'
      else indices_from (S i) c b'
  end.

(** [b2j.get(c, nothing)] after [__chain_b]. *)
Definition b2j (b : seqT) (c : ascii) : list nat :=
  if popular b c then [] else indices_from 0 c b.

(** State of the search: [(besti, bestj, bestsize)]. *)
Definition best := (nat * nat * nat)%type.

(** [j2len.get(j-1, 0)]; the key -1 is never present. *)
Definition j2len_get_pred (j2len : gmap nat nat) (j : nat) : nat :=
  match j with
  | O => 0
  | S j' => default 0 (j2len !! j')
  end.

(** The body of [for j in b2j.get(a[i], nothing)] with its [continue]
    for [j < blo] and [break] for [j >= bhi] (the positions are
    increasing, so breaking and skipping the rest agree).  [i-k+1] and
    [j-k+1] are written [i+1-k] and [j+1-k]: [k] can be [i+1], and the
    subtraction on [nat] is truncated. *)
Definition inner_step (blo bhi i : nat) (j2len : gmap nat nat)
    (st : gmap nat nat * best) (j : nat) : gmap nat nat * best :=
  let '(newj2len, (besti, bestj, bestsize)) := st in
  if (j <? blo)%nat then st
  else if (bhi <=? j)%nat then st
  else
    let k := j2len_get_pred j2len j + 1 in
    let newj2len' := <[j := k]> newj2len in
    if (bestsize <? k)%nat
    then (newj2len', (i + 1 - k, j + 1 - k, k))
    else (newj2len', (besti, bestj, bestsize)).

(** The loop [for i in range(alo, ahi)], over the slice [a[alo:ahi]]
    given as the list [ai] of its elements with [i] the index of the
    first one. *)
Fixpoint outer_loop (b : seqT) (blo bhi : nat) (ai : seqT) (i : nat)
    (j2len : gmap nat nat) (bst : best) : best :=
  match ai with
  | [] => bst
  | c :: ai' =>
      let '(newj2len, bst') :=
        fold_left (inner_step blo bhi i j2len) (b2j b c) (∅, bst) in
      outer_loop b blo bhi ai' (S i) newj2len bst'
  end.

Definition at_eq (a b : seqT) (i j : nat) : bool :=
  match a !! i, b !! j with
  | Some x, Some y => Ascii.eqb x y
  | _, _ => false
  end.

(** First [while]: extend the match to the left over equal elements
    ([isbjunk] is constantly false). *)
Fixpoint extend_left (a b : seqT) (alo blo : nat) (fuel : nat) (bst : best)
    : best :=
  match fuel with
  | O => bst
  | S fuel' =>
      let '(besti, bestj, bestsize) := bst in
      if (alo <? besti)%nat && (blo <? bestj)%nat
         && at_eq a b (besti - 1) (bestj - 1)
      then extend_left a b alo blo fuel' (besti - 1, bestj - 1, bestsize + 1)
      else bst
  end.

(** Second [while]: extend the match to the right. *)
Fixpoint extend_right (a b : seqT) (ahi bhi : nat) (fuel : nat) (bst : best)
    : best :=
  match fuel with
  | O => bst
  | S fuel' =>
      let '(besti, bestj, bestsize) := bst in
      if (besti + bestsize <? ahi)%nat && (bestj + bestsize <? bhi)%nat
         && at_eq a b (besti + bestsize) (bestj + bestsize)
      then extend_right a b ahi bhi fuel' (besti, bestj, bestsize + 1)
      else bst
  end.

(** [find_longest_match(alo, ahi, blo, bhi)].  The last two [while]
    loops of the Python code only run over junk elements of [b], of
    which there are none.  The first extension loop steps [besti] down
    towards [alo] and the second steps [besti + bestsize] up towards
    [ahi], so the distances to these bounds are rounds enough for the
    loops to run to their end ([extend_left_done], [extend_right_done]). *)
Definition find_longest_match (a b : seqT) (alo ahi blo bhi : nat) : best :=
  let ai := take (ahi - alo) (drop alo a) in
  let '(besti, bestj, bestsize) :=
    outer_loop b blo bhi ai alo ∅ (alo, blo, 0) in
  let '(besti, bestj, bestsize) :=
    extend_left a b alo blo (besti - alo) (besti, bestj, bestsize) in
  extend_right a b ahi bhi (ahi - (besti + bestsize)) (besti, bestj, bestsize).

(** Sum of the sizes of the blocks that [get_matching_blocks] collects
    from the work queue started at [(alo, ahi, blo, bhi)]: the block
    found in the window, then the windows to its left and to its right.
    The sum does not depend on the order in which the queue is served. *)
Fixpoint matches_in (fuel : nat) (a b : seqT) (alo ahi blo bhi : nat) : nat :=
  match fuel with
  | O => 0
  | S fuel' =>
      let '(i, j, k) := find_longest_match a b alo ahi blo bhi in
      if (k =? 0)%nat then 0
      else
        k
        + (if (alo <? i)%nat && (blo <? j)%nat
           then matches_in fuel' a b alo i blo j else 0)
        + (if (i + k <? ahi)%nat && (j + k <? bhi)%nat
           then matches_in fuel' a b (i + k) ahi (j + k) bhi else 0)
  end.

(** [sum(triple[-1] for triple in self.get_matching_blocks())]: every
    queued window is non-empty and strictly shorter in [a] than the one
    it was cut from, so [length a + 1] levels exhaust the queue
    ([matches_fuel]). *)
Definition matches (a b : seqT) : nat :=
  matches_in (S (length a)) a b 0 (length a) 0 (length b).

(** [ratio()]: [_calculate_ratio(matches, len(a) + len(b))], as the exact
    rational [2 * matches / length], and [1] for two empty sequences. *)
Definition ratio (a b : seqT) : Q :=
  let len := (length a + length b)%nat in
  if (len =? 0)%nat then 1%Q
  else (Z.of_nat (2 * matches a b) # Pos.of_nat len)%Q.

Definition of_str (s : string) : seqT := list_ascii_of_string s.

(** The conditions of the two extension loops. *)
Definition left_guard (a b : seqT) (alo blo : nat) (bst : best) : bool :=
  let '(besti, bestj, _) := bst in
  (alo <? besti) && (blo <? bestj) && at_eq a b (besti - 1) (bestj - 1).

Definition right_guard (a b : seqT) (ahi bhi : nat) (bst : best) : bool :=
  let '(besti, bestj, bestsize) := bst in
  (besti + bestsize <? ahi) && (bestj + bestsize <? bhi)
  && at_eq a b (besti + bestsize) (bestj + bestsize).

(** The block [bst] lies within [a[alo:ahi]]. *)
Definition within (alo ahi : nat) (bst : best) : Prop :=
  let '(besti, _, bestsize) := bst in alo <= besti /\ besti + bestsize <= ahi.

(** The lengths recorded in [j2len] are at most [n]. *)
Definition lengths_le (n : nat) (j2len : gmap nat nat) : Prop :=
  forall j v, j2len !! j = Some v -> v <= n.

End Difflib.

(** ** Data model *)

(** A value looked up in a JSON object of the provider by a key whose
    value, when present, is a string or [null]. *)
Inductive field : Type :=
| Absent
| Null
| Str (s : string).

(** [raw.get(key) or d]: [d] replaces a missing key, [None] and the
    empty string. *)
Definition get_or (f : field) (d : string) : string :=
  match f with
  | Str s => if PyStr.truthy s then s else d
  | _ => d
  end.

(** [raw.get(key)]: [None] stands for Python's [None]. *)
Definition get (f : field) : option string :=
  match f with
  | Str s => Some s
  | _ => None
  end.

(** [raw.get(key, default)] *)
Definition get_default (f : field) (d : string) : option string :=
  match f with
  | Absent => Some d
  | Null => None
  | Str s => Some s
  end.

(** The [source] object of a raw item. *)
Record RawSource : Type := mkRawSource { name : field }.

(** The value under the key [source] of a raw item: the key is missing,
    the value is [null] or another value that is no object, or it is an
    object. *)
Inductive source_field : Type :=
| SourceAbsent
| SourceNotObject
| SourceObject (src : RawSource).

(** One element of the provider's [articles] array, an object whose
    [title], [description], [url], [publishedAt] and [urlToImage] are
    strings or [null] when present, as the provider documents them. *)
Record RawArticle : Type := mkRaw {
  raw_title : field;
  raw_description : field;
  raw_url : field;
  raw_source : source_field;
  raw_publishedAt : field;
  raw_urlToImage : field
}.

(** [class Article].  [published_at] and [image_url] can hold [None]. *)
Record Article : Type := mkArticle {
  title : string;
  description : string;
  url : string;
  source : string;
  published_at : option string;
  image_url : option string;
  title_ja : string;
  summary_ja : string;
  category : string
}.

(** [Article.__init__] *)
Definition Article_init (title description url source : string)
    (published_at image_url : option string) : Article :=
  {| title := title; description := description; url := url;
     source := source; published_at := published_at; image_url := image_url;
     title_ja := ""; summary_ja := ""; category := "" |}.

#[global] Instance field_eq_dec : EqDecision field.
Proof. solve_decision. Defined.
#[global] Instance Article_eq_dec : EqDecision Article.
Proof. solve_decision. Defined.

(** ** Duplicate detection *)

(** The default [threshold=0.75]. *)
Definition default_threshold : Q := 3 # 4.

(** [_is_similar_title].  The Python value [2.0 * matches / length] is
    the correctly rounded quotient; 0.75 is a binary fraction and an exact
    quotient below it is at least [1 / (4 * length)] away from it, so for
    titles of fewer than 2^50 characters the floating-point comparison
    agrees with the comparison of exact rationals made here. *)
Definition _is_similar_title (title_a title_b : string) (threshold : Q) : bool :=
  Qle_bool threshold
    (Difflib.ratio (Difflib.of_str (PyStr.lower title_a))
                   (Difflib.of_str (PyStr.lower title_b))).

(** [article.url.rstrip("/").lower()] *)
Definition normalized_url (article : Article) : string :=
  PyStr.lower (PyStr.rstrip_slash (url article)).

(** The inner [for existing in unique_articles] loop with its [break]:
    the final value of [is_duplicate]. *)
Definition is_duplicate (unique_articles : list Article) (article : Article)
    : bool :=
  existsb
    (fun existing =>
       _is_similar_title (title article) (title existing) default_threshold)
    unique_articles.

(** The loop state of [_deduplicate_articles]. *)
Definition dedup_state : Type := (gset string * list Article)%type.

(** One round of [for article in articles]. *)
Definition dedup_step (st : dedup_state) (article : Article) : dedup_state :=
  let '(seen_urls, unique_articles) := st in
  if decide (normalized_url article ∈ seen_urls) then st
  else if is_duplicate unique_articles article then st
  else ({[normalized_url article]} ∪ seen_urls, unique_articles ++ [article]).

Definition dedup_run (articles : list Article) : dedup_state :=
  fold_left dedup_step articles (∅, []).

Definition _deduplicate_articles (articles : list Article) : list Article :=
  snd (dedup_run articles).

(** ** Quality filter *)

Definition _is_valid_article (raw : RawArticle) : bool :=
  let title := get_or (raw_title raw) "" in
  let description := get_or (raw_description raw) "" in
  let url := get_or (raw_url raw) "" in
  if negb (PyStr.truthy (PyStr.strip title))
     || negb (PyStr.truthy (PyStr.strip url))
  then false
  else if String.eqb (PyStr.lower (PyStr.strip title)) "[removed]" then false
  else if String.eqb (PyStr.lower (PyStr.strip description)) "[removed]"
  then false
  else true.

(** ** Configuration ([scripts/config.py]) *)

Definition NEWSAPI_BASE_URL : string := "https://newsapi.org/v2/everything".

(** A phrase between double quotes, as the keyword groups write them. *)
Definition quoted (phrase : string) : string :=
  let dq := String (ascii_of_nat 34) EmptyString in
  dq +:+ phrase +:+ dq.

Definition any_of (p1 p2 p3 : string) : string :=
  quoted p1 +:+ " OR " +:+ quoted p2 +:+ " OR " +:+ quoted p3.

Definition SEARCH_KEYWORD_GROUPS : list string :=
  [ any_of "paint booth" "spray booth" "coating booth";
    any_of "industrial coating" "powder coating" "surface finishing";
    any_of "automotive painting" "automotive coating" "paint shop";
    any_of "paint technology" "coating technology" "painting equipment";
    any_of "paint VOC" "coating regulation" "paint emission" ].

Definition ARTICLES_PER_QUERY : nat := 10.
Definition MAX_ARTICLES : nat := 20.
Definition SEARCH_DAYS_BACK : nat := 7.

Definition EXCLUDED_DOMAINS : list string :=
  [ "youtube.com"; "tiktok.com"; "reddit.com"; "facebook.com";
    "instagram.com"; "twitter.com"; "x.com"; "pinterest.com" ].

(** ** The outside world: the provider and the clock *)

(** The query parameters of one outbound search request. *)
Record Request : Type := mkRequest {
  param_q : string;
  param_from : string;
  param_to : string;
  param_language : string;
  param_sortBy : string;
  param_pageSize : nat;
  param_apiKey : string;
  param_excludeDomains : option string
}.

(** The value under the key [articles] of a reply: the key is missing,
    the value is [null], or it is a list of items. *)
Inductive articles_field : Type :=
| ArticlesAbsent
| ArticlesNull
| ArticlesList (raw_articles : list RawArticle).

(** A JSON object with the keys the collector reads. *)
Record JsonBody : Type := mkBody {
  body_status : field;
  body_code : field;
  body_message : field;
  body_articles : articles_field
}.

(** The body of a reply, as [response.json()] finds it: no JSON text (an
    empty body, an HTML page), a JSON value that is no object, or a JSON
    object. *)
Inductive reply_body : Type :=
| BodyNotJson
| BodyNotObject
| BodyObject (data : JsonBody).

(** What [requests.get(..., timeout=30)] does: it raises a
    [requests.RequestException] (connection error, timeout, ...), or it
    returns a response with a status code and a body. *)
Inductive http_outcome : Type :=
| RequestFailed
| Response (status_code : Z) (body : reply_body).

(** [response.raise_for_status()] raises [HTTPError], a
    [RequestException], for the client and server error codes. *)
Definition raise_for_status (status_code : Z) : bool :=
  (400 <=? status_code)%Z && (status_code <? 600)%Z.

Record World : Type := mkWorld {
  (** [os.environ.get("NEWSAPI_KEY", "")] *)
  NEWSAPI_KEY : string;
  (** the provider's answer to a request *)
  requests_get : string -> Request -> http_outcome;
  (** [(now - timedelta(days=d)).strftime("%Y-%m-%d")] *)
  date_days_back : nat -> string
}.

(** ** Exceptions, and computations that log their outbound requests *)

(** [JSONDecodeError] is the exception of [response.json()]; the
    collector has no handler for it, nor for the others. *)
Inductive exn : Type :=
| ValueError
| TypeError
| KeyError
| AttributeError
| JSONDecodeError.

Definition result (A : Type) : Type := (exn + A)%type.

(** A computation takes the log of the requests issued so far (oldest
    first) and returns its outcome with the extended log. *)
Definition M (A : Type) : Type := list Request -> result A * list Request.

Definition ret {A} (x : A) : M A := fun log => (inr x, log).
Definition raise {A} (e : exn) : M A := fun log => (inl e, log).
Definition bind {A B} (m : M A) (k : A -> M B) : M B :=
  fun log =>
    match m log with
    | (inl e, log') => (inl e, log')
    | (inr x, log') => k x log'
    end.
Definition lift {A} (r : result A) : M A := fun log => (r, log).

Notation "'let*' x := m 'in' k" := (bind m (fun x => k))
  (at level 10, x name, m at level 100, k at level 200).

(** [requests.get(url, params=params, timeout=30)] *)
Definition http_get (W : World) (url : string) (params : Request)
    : M http_outcome :=
  fun log => (inr (requests_get W url params), log ++ [params]).

(** ** Fetching one keyword group *)

(** [raw[key]] followed by a [str] method call: [KeyError] on a missing
    key, [AttributeError] on [None]. *)
Definition subscript (f : field) : result string :=
  match f with
  | Absent => inl KeyError
  | Null => inl AttributeError
  | Str s => inr s
  end.

(** [raw.get("source", {}).get("name")]: the default [{}] stands in
    for a missing key only; [.get] on [null], or on another value that is
    no object, raises [AttributeError]. *)
Definition source_name (raw : RawArticle) : result field :=
  match raw_source raw with
  | SourceAbsent => inr Absent
  | SourceNotObject => inl AttributeError
  | SourceObject src => inr (name src)
  end.

(** The [Article(...)] expression in the loop over [raw_articles]; its
    arguments are evaluated in the order [title], [description], [url],
    [source], and the description raises nothing. *)
Definition make_article (raw : RawArticle) : result Article :=
  match subscript (raw_title raw) with
  | inl e => inl e
  | inr t =>
      match subscript (raw_url raw) with
      | inl e => inl e
      | inr u =>
          match source_name raw with
          | inl e => inl e
          | inr n =>
              inr (Article_init
                     (PyStr.strip t)
                     (PyStr.strip (get_or (raw_description raw) ""))
                     (PyStr.strip u)
                     (PyStr.strip (get_or n "Unknown"))
                     (get_default (raw_publishedAt raw) "")
                     (get (raw_urlToImage raw)))
          end
      end
  end.

(** [for raw in raw_articles: ...], from the accumulator [articles]. *)
Fixpoint build_articles (raw_articles : list RawArticle)
    (articles : list Article) : result (list Article) :=
  match raw_articles with
  | [] => inr articles
  | raw :: rest =>
      if negb (_is_valid_article raw) then build_articles rest articles
      else
        match make_article raw with
        | inl e => inl e
        | inr a => build_articles rest (articles ++ [a])
        end
  end.

Definition build_params (W : World) (query from_date to_date : string)
    (page_size : nat) : Request :=
  let excluded := String.concat "," EXCLUDED_DOMAINS in
  {| param_q := query; param_from := from_date; param_to := to_date;
     param_language := "en"; param_sortBy := "relevancy";
     param_pageSize := page_size; param_apiKey := NEWSAPI_KEY W;
     param_excludeDomains :=
       if PyStr.truthy excluded then Some excluded else None |}.

(** What follows the [try] block, none of it under a handler:
    [response.json()] raises when the body is no JSON text, [data.get] when
    the value is no object; [len(raw_articles)], an argument of the log
    call before the loop, raises [TypeError] when [articles] is [null]. *)
Definition parse_body (body : reply_body) : result (list Article) :=
  match body with
  | BodyNotJson => inl JSONDecodeError
  | BodyNotObject => inl AttributeError
  | BodyObject data =>
      if bool_decide (body_status data <> Str "ok") then inr []
      else
        match body_articles data with
        | ArticlesAbsent => build_articles [] []
        | ArticlesNull => inl TypeError
        | ArticlesList raw_articles => build_articles raw_articles []
        end
  end.

Definition _fetch_articles_for_query (W : World)
    (query from_date to_date : string) (page_size : nat) : M (list Article) :=
  let params := build_params W query from_date to_date page_size in
  let* outcome := http_get W NEWSAPI_BASE_URL params in
  match outcome with
  | RequestFailed => ret []
  | Response status_code body =>
      if raise_for_status status_code then ret []
      else lift (parse_body body)
  end.

(** ** [datetime] values and their order *)
Module Datetime.

(** A [datetime] is naive (no [tzinfo]) or aware.  Either carries its
    time in microseconds counted from 0001-01-01T00:00:00: the wall
    clock time of a naive value, the UTC instant of an aware one. *)
Inductive datetime : Type :=
| Naive (wall : Z)
| Aware (utc : Z).

Definition is_aware (d : datetime) : bool :=
  match d with Aware _ => true | Naive _ => false end.

Definition instant (d : datetime) : Z :=
  match d with Naive t => t | Aware t => t end.

(** [datetime.min.replace(tzinfo=timezone.utc)] *)
Definition min_utc : datetime := Aware 0.

(** [d1 < d2]: naive values compare by wall clock time, aware values
    by instant, and comparing a naive with an aware value raises
    [TypeError]. *)
Definition lt (d1 d2 : datetime) : result bool :=
  match d1, d2 with
  | Naive t1, Naive t2 => inr (t1 <? t2)%Z
  | Aware t1, Aware t2 => inr (t1 <? t2)%Z
  | _, _ => inl TypeError
  end.

End Datetime.
Import Datetime.

(** ** [list.sort(key=..., reverse=True)] *)
Section Sort.
Context {A : Type} (key : A -> datetime).

(** Put [x], which stood before every element of [l], into the
    descending list [l]: behind the elements with a greater key,
    before those with an equal or smaller one. *)
Fixpoint insert_desc (x : A) (l : list A) : list A :=
  match l with
  | [] => [x]
  | y :: l' =>
      if (instant (key x) <? instant (key y))%Z
      then y :: insert_desc x l'
      else x :: l
  end.

(** The stable descending order of [l]. *)
Fixpoint stable_desc (l : list A) : list A :=
  match l with
  | [] => []
  | x :: l' => insert_desc x (stable_desc l')
  end.

(** The same insertion carried out with the comparison [x < y] of the
    keys, which can raise. *)
Fixpoint insert_lt (x : A) (l : list A) : result (list A) :=
  match l with
  | [] => inr [x]
  | y :: l' =>
      match lt (key x) (key y) with
      | inl e => inl e
      | inr true =>
          match insert_lt x l' with
          | inl e => inl e
          | inr r => inr (y :: r)
          end
      | inr false => inr (x :: l)
      end
  end.

(** [l.sort(key=key, reverse=True)].  The sort compares keys with [<]
    only and is stable, also with [reverse=True].  It is modelled by
    the insertion sort: a stable sort has one possible result, and any
    sort has to link the elements of the list by comparisons, so it
    raises [TypeError] exactly when naive and aware keys both occur
    (see [sort_reverse_spec]). *)
Fixpoint sort_reverse (l : list A) : result (list A) :=
  match l with
  | [] => inr []
  | x :: l' =>
      match sort_reverse l' with
      | inl e => inl e
      | inr sorted => insert_lt x sorted
      end
  end.

(** The keys of [l] are all aware or all naive. *)
Definition comparable_keys (l : list A) : bool :=
  forallb (fun x => is_aware (key x)) l
  || forallb (fun x => negb (is_aware (key x))) l.

End Sort.

(** [s.replace("Z", "+00:00")] *)
Fixpoint replace_Z (s : string) : string :=
  match s with
  | EmptyString => EmptyString
  | String c s' =>
      if Ascii.eqb c "Z"%char then "+00:00" +:+ replace_Z s'
      else String c (replace_Z s')
  end.

(** ** The collector *)
Section Collector.

(** [datetime.fromisoformat]: [None] stands for [ValueError]. *)
Variable fromisoformat : string -> option datetime.
Variable W : World.

(** The local function [_parse_date]: [article.published_at] being
    [None] raises [AttributeError] at [.replace], an unparseable string
    raises [ValueError]; both are caught. *)
Definition _parse_date (article : Article) : datetime :=
  match published_at article with
  | None => min_utc
  | Some s =>
      match fromisoformat (replace_Z s) with
      | Some d => d
      | None => min_utc
      end
  end.

(** [for query in SEARCH_KEYWORD_GROUPS: ...] *)
Fixpoint collect_loop (queries : list string) (from_date to_date : string)
    (all_articles : list Article) : M (list Article) :=
  match queries with
  | [] => ret all_articles
  | query :: rest =>
      let* articles :=
        _fetch_articles_for_query W query from_date to_date
          ARTICLES_PER_QUERY in
      collect_loop rest from_date to_date (all_articles ++ articles)
  end.

Definition collect_news : M (list Article) :=
  if negb (PyStr.truthy (NEWSAPI_KEY W)) then raise ValueError
  else
    let from_date := date_days_back W SEARCH_DAYS_BACK in
    let to_date := date_days_back W 0 in
    let* all_articles :=
      collect_loop SEARCH_KEYWORD_GROUPS from_date to_date [] in
    let unique_articles := _deduplicate_articles all_articles in
    let* sorted := lift (sort_reverse _parse_date unique_articles) in
    ret (take MAX_ARTICLES sorted).

End Collector.

(** ** [datetime.fromisoformat] on the common formats

    The formats [YYYY-MM-DD], [YYYY-MM-DDTHH:MM:SS] and
    [YYYY-MM-DDTHH:MM:SS+HH:MM] (or [-HH:MM], hours below 24 and minutes
    below 60), which every version of the function reads the same way.
    The function below is a fragment of the library function: on a string
    of another format it gives [None] also where Python parses the string
    (fractional seconds, a separator other than [T], an offset with 60
    minutes or more).  The general properties of the collector are stated
    for an arbitrary parser; this one serves the worked examples, whose
    publish times are of the three formats or the empty string, which
    Python rejects. *)
Module Iso.

Definition digit (c : ascii) : option Z :=
  let n := nat_of_ascii c in
  if (48 <=? n) && (n <=? 57) then Some (Z.of_nat (n - 48)) else None.

Definition num2 (c1 c2 : ascii) : option Z :=
  d1 ← digit c1; d2 ← digit c2; Some (10 * d1 + d2)%Z.

Definition num4 (c1 c2 c3 c4 : ascii) : option Z :=
  hi ← num2 c1 c2; lo ← num2 c3 c4; Some (100 * hi + lo)%Z.

Definition is_leap (y : Z) : bool :=
  ((y mod 4 =? 0) && (negb (y mod 100 =? 0) || (y mod 400 =? 0)))%Z.

Definition days_in_month (y m : Z) : Z :=
  if (m =? 2)%Z then (if is_leap y then 29 else 28)%Z
  else if ((m =? 4) || (m =? 6) || (m =? 9) || (m =? 11))%Z then 30%Z
  else 31%Z.

(** Days of the year before the first day of month [m]. *)
Definition days_before_month (y m : Z) : Z :=
  fold_right Z.add 0%Z
    (map (days_in_month y) (map Z.of_nat (seq 1 (Z.to_nat (m - 1))))).

(** Days before the first day of year [y], year 1 being the first. *)
Definition days_before_year (y : Z) : Z :=
  let p := (y - 1)%Z in
  (p * 365 + p / 4 - p / 100 + p / 400)%Z.

Definition day_ok (y m d : Z) : bool :=
  ((1 <=? y) && (1 <=? m) && (m <=? 12) && (1 <=? d)
   && (d <=? days_in_month y m))%Z.

Definition time_ok (h mi s : Z) : bool :=
  ((h <? 24) && (mi <? 60) && (s <? 60))%Z.

(** Microseconds from 0001-01-01T00:00:00 to the given civil time. *)
Definition micros (y m d h mi s : Z) : Z :=
  ((((days_before_year y + days_before_month y m + (d - 1)) * 24 + h) * 60
    + mi) * 60 + s) * 1000000.

Definition parse_date (cs : list ascii) : option (Z * Z * Z * list ascii) :=
  match cs with
  | y1 :: y2 :: y3 :: y4 :: "-"%char :: m1 :: m2 :: "-"%char :: d1 :: d2
    :: rest =>
      y ← num4 y1 y2 y3 y4; m ← num2 m1 m2; d ← num2 d1 d2;
      if day_ok y m d then Some (y, m, d, rest) else None
  | _ => None
  end.

Definition parse_hms (cs : list ascii) : option (Z * Z * Z * list ascii) :=
  match cs with
  | h1 :: h2 :: ":"%char :: m1 :: m2 :: ":"%char :: s1 :: s2 :: rest =>
      h ← num2 h1 h2; mi ← num2 m1 m2; s ← num2 s1 s2;
      if time_ok h mi s then Some (h, mi, s, rest) else None
  | _ => None
  end.

(** The UTC offset in microseconds. *)
Definition parse_offset (cs : list ascii) : option Z :=
  match cs with
  | sign :: h1 :: h2 :: ":"%char :: m1 :: m2 :: [] =>
      h ← num2 h1 h2; mi ← num2 m1 m2;
      if negb ((h <? 24) && (mi <? 60))%Z then None
      else
        let off := ((h * 60 + mi) * 60 * 1000000)%Z in
        if Ascii.eqb sign "+"%char then Some off
        else if Ascii.eqb sign "-"%char then Some (- off)%Z
        else None
  | _ => None
  end.

Definition fromisoformat (date_string : string) : option datetime :=
  '(y, m, d, rest) ← parse_date (list_ascii_of_string date_string);
  match rest with
  | [] => Some (Naive (micros y m d 0 0 0))
  | "T"%char :: tstr =>
      '(h, mi, s, tz) ← parse_hms tstr;
      match tz with
      | [] => Some (Naive (micros y m d h mi s))
      | _ => off ← parse_offset tz; Some (Aware (micros y m d h mi s - off))
      end
  | _ => None
  end.

End Iso.

(** ** The rejection rules of the quality filter, as the specification
    lists them *)

(** The field is absent, empty or white space only. *)
Definition absent_or_blank (f : field) : Prop :=
  match f with
  | Str s => PyStr.all_space s = true
  | _ => True
  end.

(** The field, trimmed and lowercased, is the sentinel. *)
Definition is_removed (f : field) : Prop :=
  match f with
  | Str s => PyStr.lower (PyStr.strip s) = "[removed]"
  | _ => False
  end.

(** [x] is at least as recent as [y] under the key. *)
Definition not_older {A} (key : A -> datetime) (x y : A) : Prop :=
  (instant (key y) <= instant (key x))%Z.

(** ** Vocabulary of the deduplicator's properties *)

(** Some article of [unique_articles] has the normalized URL of
    [article]. *)
Definition url_seen (unique_articles : list Article) (article : Article)
    : Prop :=
  exists x, x ∈ unique_articles /\ normalized_url x = normalized_url article.

(** [later] is a duplicate of [earlier] in the sense of the two checks:
    the same normalized URL, or a title whose similarity to the title of
    [earlier] reaches the threshold. *)
Definition conflicts_with (later earlier : Article) : Prop :=
  normalized_url later = normalized_url earlier
  \/ _is_similar_title (title later) (title earlier) default_threshold = true.

(** No article of the list is a duplicate of one that stands before it. *)
Definition first_wins (l : list Article) : Prop :=
  forall i j x y, i < j -> l !! i = Some x -> l !! j = Some y ->
    normalized_url x <> normalized_url y
    /\ _is_similar_title (title y) (title x) default_threshold = false.

(** ** Vocabulary of the collector's properties *)

(** The three recoverable failures of a query: the request raises, the
    status code is an error code, the body is a JSON object whose status
    is not "ok". *)
Definition query_fails (o : http_outcome) : Prop :=
  match o with
  | RequestFailed => True
  | Response status_code body =>
      raise_for_status status_code = true
      \/ exists data, body = BodyObject data /\ body_status data <> Str "ok"
  end.

(** Every item of the list that passes the filter has a [source] the
    code can read: none, or an object. *)
Definition sources_readable (raw_articles : list RawArticle) : Prop :=
  Forall (fun raw => _is_valid_article raw = true ->
                     raw_source raw <> SourceNotObject)
         raw_articles.

(** The reply is one the code after the [try] block can read: a JSON
    object whose [articles], when the status is "ok", is missing or a
    list with readable sources. *)
Definition body_readable (body : reply_body) : Prop :=
  exists data, body = BodyObject data
    /\ (body_status data <> Str "ok"
        \/ match body_articles data with
           | ArticlesAbsent => True
           | ArticlesNull => False
           | ArticlesList raw_articles => sources_readable raw_articles
           end).

(** The outcome of a request is a failure the [try] block handles, or a
    readable reply. *)
Definition outcome_readable (o : http_outcome) : Prop :=
  match o with
  | RequestFailed => True
  | Response status_code body =>
      raise_for_status status_code = true \/ body_readable body
  end.

Definition trimmed (s : string) : Prop := PyStr.strip s = s.

(** The provider gives no source name: no [source] key, or a [source]
    object with no [name] in it or with a [name] that is [null] or
    empty. *)
Definition source_omitted (raw : RawArticle) : Prop :=
  match raw_source raw with
  | SourceAbsent => True
  | SourceNotObject => False
  | SourceObject src =>
      match name src with
      | Str s => s = EmptyString
      | _ => True
      end
  end.

(** What [article] owes to the raw item [raw] it was built from. *)
Definition built_from (raw : RawArticle) (article : Article) : Prop :=
  make_article raw = inr article
  /\ trimmed (title article) /\ trimmed (description article)
  /\ trimmed (url article) /\ trimmed (source article)
  /\ title article <> EmptyString /\ url article <> EmptyString
  /\ (source_omitted raw -> source article = "Unknown")
  /\ published_at article = get_default (raw_publishedAt raw) EmptyString
  /\ image_url article = get (raw_urlToImage raw).

(** ** Sample articles *)
Module Sample.

Definition article (t u : string) (d : option string) : Article :=
  Article_init t EmptyString u "Unknown" d None.

(** [energy_copy] repeats the title of [energy]; [voc] has the URL of
    [energy_copy] up to a trailing slash, and a title of its own. *)
Definition energy : Article :=
  article "Paint Booth Saves Energy" "http://a.com/x" None.
Definition energy_copy : Article :=
  article "Paint booth saves energy!" "http://b.com/y" None.
Definition voc : Article :=
  article "VOC Regulation Update in EU" "http://b.com/y/" None.

(** Two titles whose similarity depends on the order of comparison. *)
Definition abaab : Article := article "abaab" "http://a.com/1" None.
Definition aabab : Article := article "aabab" "http://a.com/2" None.

(** A raw item with white space around its values. *)
Definition raw_padded : RawArticle :=
  {| raw_title := Str "  Paint Booth Saves Energy ";
     raw_description := Null;
     raw_url := Str " http://a.com/x ";
     raw_source := SourceObject {| name := Absent |};
     raw_publishedAt := Str " 2024-03-01T10:00:00Z ";
     raw_urlToImage := Absent |}.

(** A placeholder item for content that was taken down. *)
Definition raw_removed : RawArticle :=
  {| raw_title := Str "[Removed]";
     raw_description := Str "[Removed]";
     raw_url := Str "https://removed.com";
     raw_source := SourceObject {| name := Str "[Removed]" |};
     raw_publishedAt := Null;
     raw_urlToImage := Null |}.

(** The same item with another source, publish time and image. *)
Definition raw_padded_elsewhere : RawArticle :=
  {| raw_title := raw_title raw_padded;
     raw_description := raw_description raw_padded;
     raw_url := raw_url raw_padded;
     raw_source := SourceAbsent;
     raw_publishedAt := Null;
     raw_urlToImage := Str "http://a.com/x.png" |}.

Definition article_padded : Article :=
  Article_init "Paint Booth Saves Energy" EmptyString "http://a.com/x"
    "Unknown" (Some " 2024-03-01T10:00:00Z ") None.

(** An article whose publish time has no UTC offset, and one whose
    publish time is the empty string. *)
Definition dated_naive : Article :=
  article "Paint Booth Saves Energy" "http://a.com/x"
    (Some "2024-03-01T10:00:00").
Definition undated : Article :=
  article "VOC Regulation Update in EU" "http://b.com/y" (Some EmptyString).

Definition raw_of (a : Article) : RawArticle :=
  {| raw_title := Str (title a);
     raw_description := Str (description a);
     raw_url := Str (url a);
     raw_source := SourceObject {| name := Str (source a) |};
     raw_publishedAt :=
       match published_at a with Some s => Str s | None => Null end;
     raw_urlToImage := Null |}.

Definition ok_data (raws : list RawArticle) : JsonBody :=
  {| body_status := Str "ok"; body_code := Absent; body_message := Absent;
     body_articles := ArticlesList raws |}.

Definition ok_body (raws : list RawArticle) : reply_body :=
  BodyObject (ok_data raws).

Definition clock (d : nat) : string :=
  if (d =? 0)%nat then "2024-03-08" else "2024-03-01".

(** The credential is set; the first keyword group finds the two
    articles above, the requests of the other groups fail. *)
Definition world_mixed : World :=
  {| NEWSAPI_KEY := "k";
     requests_get := fun _ params =>
       if String.eqb (param_q params) (any_of "paint booth" "spray booth" "coating booth")
       then Response 200 (ok_body [raw_of dated_naive; raw_of undated])
       else RequestFailed;
     date_days_back := clock |}.

(** The first keyword group finds the two articles whose titles
    compare differently in the two orders. *)
Definition world_pair : World :=
  {| NEWSAPI_KEY := "k";
     requests_get := fun _ params =>
       if String.eqb (param_q params) (any_of "paint booth" "spray booth" "coating booth")
       then Response 200 (ok_body [raw_of abaab; raw_of aabab])
       else RequestFailed;
     date_days_back := clock |}.

(** The reply to the first keyword group has status 300 and a body
    with one article; the reply to the second has status 304 and no
    body. *)
Definition world_unsuccessful : World :=
  {| NEWSAPI_KEY := "k";
     requests_get := fun _ params =>
       if String.eqb (param_q params) (any_of "paint booth" "spray booth" "coating booth")
       then Response 300 (ok_body [raw_of energy])
       else if String.eqb (param_q params)
                 (any_of "industrial coating" "powder coating" "surface finishing")
       then Response 304 BodyNotJson
       else RequestFailed;
     date_days_back := clock |}.

(** No credential. *)
Definition world_no_key : World :=
  {| NEWSAPI_KEY := EmptyString;
     requests_get := fun _ _ => RequestFailed;
     date_days_back := clock |}.

(** Article number [i] of 25: a title of eight times the [i]-th
    letter, published on day [i+1] of January 2024, at midnight UTC. *)
Definition numbered (i : nat) : Article :=
  let t := string_of_list_ascii (repeat (ascii_of_nat (97 + i)) 8) in
  let day := string_of_list_ascii
               [ascii_of_nat (48 + (i + 1) / 10);
                ascii_of_nat (48 + (i + 1) mod 10)] in
  article t ("http://a.com/" +:+ t)
    (Some ("2024-01-" +:+ day +:+ "T00:00:00Z")).

Fixpoint index_of (q : string) (qs : list string) : option nat :=
  match qs with
  | [] => None
  | q' :: qs' =>
      if String.eqb q q' then Some 0 else S <$> index_of q qs'
  end.

(** Each of the five keyword groups finds five of the 25 articles. *)
Definition world_25 : World :=
  {| NEWSAPI_KEY := "k";
     requests_get := fun _ params =>
       match index_of (param_q params) SEARCH_KEYWORD_GROUPS with
       | Some g =>
           Response 200
             (ok_body (map (fun i => raw_of (numbered i)) (seq (5 * g) 5)))
       | None => RequestFailed
       end;
     date_days_back := clock |}.

(** What [collect_news] returns in that world. *)
Definition news_25 : list Article :=
  match (collect_news Iso.fromisoformat world_25 []).1 with
  | inr res => res
  | inl _ => []
  end.

End Sample.

(** [n] slashes. *)
Fixpoint slashes (n : nat) : string :=
  match n with
  | O => EmptyString
  | S n' => String "/"%char (slashes n')
  end.

(** The requests of a run: one per keyword group, in the order of the
    groups. *)
Definition run_requests (W : World) : list Request :=
  map (fun query =>
         build_params W query (date_days_back W SEARCH_DAYS_BACK)
           (date_days_back W 0) ARTICLES_PER_QUERY)
      SEARCH_KEYWORD_GROUPS.

(** The parameters every request of a run carries. *)
Definition fixed_params (W : World) (r : Request) : Prop :=
  param_language r = "en" /\ param_sortBy r = "relevancy"
  /\ param_pageSize r = 10 /\ param_apiKey r = NEWSAPI_KEY W
  /\ param_from r = date_days_back W 7 /\ param_to r = date_days_back W 0
  /\ param_excludeDomains r
     = Some "youtube.com,tiktok.com,reddit.com,facebook.com,instagram.com,twitter.com,x.com,pinterest.com".

(** The credential is set and every request fails. *)
Definition world_down : World :=
  {| NEWSAPI_KEY := "k";
     requests_get := fun _ _ => RequestFailed;
     date_days_back := Sample.clock |}.

(** ** Translation and summary ([scripts/translate_summarize.py])

    Text outside Latin-1 (the Japanese labels and fallback texts) is
    carried as its UTF-8 bytes; no operation below looks inside it. *)
Module Translate.

(** The dictionary [CATEGORIES], in the order of its keys. *)
Definition CATEGORIES : list (string * string) :=
  [ ("equipment", "塗装設備"); ("technology", "塗装技術");
    ("automotive", "自動車塗装"); ("regulation", "環境規制");
    ("market", "市場動向"); ("company", "企業ニュース");
    ("other", "その他") ].

(** [key in CATEGORIES] *)
Definition in_CATEGORIES (key : string) : bool :=
  bool_decide (key ∈ CATEGORIES.*1).

(** The line feed, and [sep.join(parts)] for it. *)
Definition nl : string := String (ascii_of_nat 10) EmptyString.

Definition join_nl (parts : list string) : string := String.concat nl parts.

(** [s.split(sep)] for the line feed: at least one part, the last one
    empty when [s] ends in a line feed. *)
Fixpoint split_nl (s : string) : list string :=
  match s with
  | EmptyString => [EmptyString]
  | String c s' =>
      if Ascii.eqb c (ascii_of_nat 10) then EmptyString :: split_nl s'
      else
        match split_nl s' with
        | [] => [String c EmptyString]
        | line :: lines => String c line :: lines
        end
  end.

(** [x or d] on strings. *)
Definition or_else (x d : string) : string :=
  if PyStr.truthy x then x else d.

Definition _build_user_prompt (article : Article) : string :=
  let parts := ["Title: " +:+ title article; "Source: " +:+ source article] in
  let parts :=
    if PyStr.truthy (description article)
    then parts ++ ["Description: " +:+ description article]
    else parts in
  let parts := parts ++ ["URL: " +:+ url article] in
  join_nl parts.

(** [line.startswith(fence)] for the code fence of three backquotes. *)
Definition fence : string := "```".

Definition starts_fence (line : string) : bool := String.prefix fence line.

(** The loop [for line in lines] that collects the lines between the
    opening fence and the next fence. *)
Fixpoint fence_loop (lines : list string) (in_block : bool)
    (json_lines : list string) : list string :=
  match lines with
  | [] => json_lines
  | line :: rest =>
      if starts_fence line && negb in_block
      then fence_loop rest true json_lines
      else if starts_fence line && in_block then json_lines
      else if in_block then fence_loop rest in_block (json_lines ++ [line])
      else fence_loop rest in_block json_lines
  end.

(** The text handed to [json.loads]. *)
Definition json_text (block_text : string) : string :=
  let text := PyStr.strip block_text in
  if starts_fence text
  then join_nl (fence_loop (split_nl text) false [])
  else text.

(** What [json.loads(text)] gives: [JSONDecodeError], a value that is
    no object, or an object.  The values of an object are typed as the
    prompt asks for them, as strings; a reply whose values are of other
    types (a list as category makes the test [not in CATEGORIES] raise
    [TypeError]) has no counterpart here, so the properties below speak of
    the calls that return and of the API error, not of every exception the
    function can let through. *)
Inductive decoded : Type :=
| Undecodable
| NotObject
| Obj (result : gmap string string).

(** [d.setdefault(key, value)] *)
Definition setdefault (key value : string) (d : gmap string string)
    : gmap string string :=
  match d !! key with
  | Some _ => d
  | None => <[key := value]> d
  end.

(** The checks on the decoded object: missing keys are filled in, an
    unknown category becomes "other".  [None] stands for the [KeyError]
    of [result["category"]]. *)
Definition normalize (article : Article) (result : gmap string string)
    : option (gmap string string) :=
  let result :=
    if bool_decide (is_Some (result !! "title_ja")
                    /\ is_Some (result !! "summary_ja")
                    /\ is_Some (result !! "category"))
    then result
    else
      setdefault "category" "other"
        (setdefault "summary_ja"
           (or_else (description article) "（要約なし）")
           (setdefault "title_ja" (title article) result)) in
  match result !! "category" with
  | None => None
  | Some c =>
      if negb (in_CATEGORIES c) then Some (<["category" := "other"]> result)
      else Some result
  end.

(** The dictionary returned when every attempt failed. *)
Definition fallback (article : Article) : gmap string string :=
  <["title_ja" := title article]>
    (<["summary_ja" := or_else (description article) "（翻訳に失敗しました）"]>
       (<["category" := "other"]> ∅)).

(** What [client.messages.create] does: it raises [RateLimitError], it
    raises another [APIError], or it returns a message, given by the
    texts of its content blocks. *)
Inductive api_outcome : Type :=
| RateLimitError
| APIError
| Message (content : list string).

Record TWorld : Type := mkTWorld {
  (** [os.environ.get("ANTHROPIC_API_KEY", "")] *)
  ANTHROPIC_API_KEY : string;
  (** the outcome of the API call number [n] (from 0), for its prompt *)
  messages_create : nat -> string -> api_outcome
}.

(** The calls made so far (their prompts, oldest first) and the
    arguments of [time.sleep] so far. *)
Record tstate : Type := mkTState {
  api_calls : list string;
  sleeps : list Q
}.

Inductive api_exn : Type :=
| Builtin (e : exn)
| AnthropicAPIError.

Definition TM (A : Type) : Type := tstate -> (api_exn + A) * tstate.

Definition tret {A} (x : A) : TM A := fun st => (inr x, st).
Definition traise {A} (e : api_exn) : TM A := fun st => (inl e, st).
Definition tbind {A B} (m : TM A) (k : A -> TM B) : TM B :=
  fun st =>
    match m st with
    | (inl e, st') => (inl e, st')
    | (inr x, st') => k x st'
    end.

Notation "'let!' x := m 'in' k" := (tbind m (fun x => k))
  (at level 10, x name, m at level 100, k at level 200).

Definition create (W : TWorld) (user_prompt : string) : TM api_outcome :=
  fun st =>
    (inr (messages_create W (length (api_calls st)) user_prompt),
     {| api_calls := api_calls st ++ [user_prompt]; sleeps := sleeps st |}).

(** [time.sleep(delay)] *)
Definition sleep (delay : Q) : TM unit :=
  fun st =>
    (inr tt, {| api_calls := api_calls st; sleeps := sleeps st ++ [delay] |}).

Section Retry.

(** [json.loads] *)
Variable json_loads : string -> decoded.
Variable W : TWorld.

(** [for attempt in range(max_retries)], on the attempts still to make,
    and the fallback after the loop. *)
Fixpoint retry_loop (article : Article) (max_retries : nat) (base_delay : Q)
    (attempts : list nat) : TM (gmap string string) :=
  match attempts with
  | [] => tret (fallback article)
  | attempt :: rest =>
      let! outcome := create W (_build_user_prompt article) in
      let on_parse_error : TM (gmap string string) :=
        if (Z.of_nat attempt <? Z.of_nat max_retries - 1)%Z
        then let! _u := sleep base_delay in
             retry_loop article max_retries base_delay rest
        else retry_loop article max_retries base_delay rest in
      match outcome with
      | Message [] => on_parse_error
      | Message (block :: _) =>
          match json_loads (json_text block) with
          | Undecodable => on_parse_error
          | NotObject => traise (Builtin AttributeError)
          | Obj result =>
              match normalize article result with
              | None => on_parse_error
              | Some result' => tret result'
              end
          end
      | RateLimitError =>
          let! _u := sleep (base_delay * inject_Z (2 ^ Z.of_nat attempt)) in
          retry_loop article max_retries base_delay rest
      | APIError =>
          if (Z.of_nat attempt <? Z.of_nat max_retries - 1)%Z
          then let! _u := sleep base_delay in
               retry_loop article max_retries base_delay rest
          else traise AnthropicAPIError
      end
  end.

Definition _call_claude_with_retry (article : Article) (max_retries : nat)
    (base_delay : Q) : TM (gmap string string) :=
  retry_loop article max_retries base_delay (seq 0 max_retries).

(** [result[key]] *)
Definition item (result : gmap string string) (key : string) : TM string :=
  match result !! key with
  | Some v => tret v
  | None => traise (Builtin KeyError)
  end.

(** [for i, article in enumerate(articles, 1)], from index [i], with
    the articles done so far. *)
Fixpoint translate_loop (articles : list Article) (i total : nat)
    (delay_between_calls : Q) (done : list Article) : TM (list Article) :=
  match articles with
  | [] => tret done
  | article :: rest =>
      let! result := _call_claude_with_retry article 3 2 in
      let! t := item result "title_ja" in
      let! s := item result "summary_ja" in
      let! c := item result "category" in
      let article' :=
        {| title := title article; description := description article;
           url := url article; source := source article;
           published_at := published_at article;
           image_url := image_url article;
           title_ja := t; summary_ja := s; category := c |} in
      let! _u :=
        (if (i <? total) && negb (Qle_bool delay_between_calls 0)
         then sleep delay_between_calls else tret tt) in
      translate_loop rest (S i) total delay_between_calls (done ++ [article'])
  end.

Definition translate_and_summarize (articles : list Article)
    (delay_between_calls : Q) : TM (list Article) :=
  if negb (PyStr.truthy (ANTHROPIC_API_KEY W))
  then traise (Builtin ValueError)
  else translate_loop articles 1 (length articles) delay_between_calls [].

End Retry.

End Translate.

(** ** Category counts of the report ([scripts/generate_html.py]) *)

(** [sum(1 for a in articles if a.category == key)] *)
Definition count_category (articles : list Article) (key : string) : nat :=
  length (filter (fun a => category a = key) articles).

(** [_count_categories]: for each key of [CATEGORIES], in their order,
    its label and its count. *)
Definition _count_categories (articles : list Article)
    : list (string * (string * nat)) :=
  map (fun '(key, label) => (key, (label, count_category articles key)))
      Translate.CATEGORIES.

(** ** Vocabulary of the translator's properties *)

(** [s] holds no line feed. *)
Definition one_line (s : string) : Prop :=
  Forall (fun c => c <> ascii_of_nat 10) (list_ascii_of_string s).

(** The dictionary has the three keys, and a known category. *)
Definition well_formed (result : gmap string string) : Prop :=
  is_Some (result !! "title_ja") /\ is_Some (result !! "summary_ja")
  /\ exists c, result !! "category" = Some c
              /\ Translate.in_CATEGORIES c = true.

(** [translated] is [article] with its three translation fields set,
    the category to a known one. *)
Definition translated_from (article translated : Article) : Prop :=
  title translated = title article
  /\ description translated = description article
  /\ url translated = url article
  /\ source translated = source article
  /\ published_at translated = published_at article
  /\ image_url translated = image_url article
  /\ Translate.in_CATEGORIES (category translated) = true.

(** The sum of the counts of [_count_categories]. *)
Definition total_count (counts : list (string * (string * nat))) : nat :=
  sum_list (map (fun entry => entry.2.2) counts).


Definition world_answering (text : string) : Translate.TWorld :=
  {| Translate.ANTHROPIC_API_KEY := "k";
     Translate.messages_create := fun _ _ => Translate.Message [text] |}.

(** A decoder that reads one text: the object with a title, a summary
    and the category "paint", which is no key of [CATEGORIES]. *)
Definition loads_sample (text : string) : Translate.decoded :=
  if String.eqb text "{sample}"
  then Translate.Obj
         (<["title_ja" := "T"]>
            (<["summary_ja" := "S"]> (<["category" := "paint"]> ∅)))
  else Translate.Undecodable.

Definition tstate0 : Translate.tstate :=
  {| Translate.api_calls := []; Translate.sleeps := [] |}.

(** An API that fails at every call with an error other than the rate
    limit. *)
Definition world_api_error : Translate.TWorld :=
  {| Translate.ANTHROPIC_API_KEY := "k";
     Translate.messages_create := fun _ _ => Translate.APIError |}.

(** One call for [Sample.energy] against an API that answers with the
    sample text: its state and its result. *)
Definition sample_call : (Translate.api_exn + gmap string string) * Translate.tstate :=
  Translate._call_claude_with_retry loads_sample (world_answering "{sample}")
    Sample.energy 3 2 tstate0.

Definition sample_result : gmap string string :=
  match sample_call.1 with
  | inr result => result
  | inl _ => ∅
  end.

(** The translation of two articles against the same API. *)
Definition sample_translation : (Translate.api_exn + list Article) * Translate.tstate :=
  Translate.translate_and_summarize loads_sample (world_answering "{sample}")
    [Sample.energy; Sample.voc] 1 tstate0.

Definition sample_translated : list Article :=
  match sample_translation.1 with
  | inr res => res
  | inl _ => []
  end.

(** ** Vocabulary for a sequence matched against itself *)

(** Position [j] of [x] holds an element that is not popular. *)
Definition kept_at (x : Difflib.seqT) (j : nat) : bool :=
  match x !! j with
  | Some c => negb (Difflib.popular x c)
  | None => false
  end.

(** The length of the run of such positions that ends at [j]. *)
Fixpoint run (x : Difflib.seqT) (j : nat) : nat :=
  match j with
  | O => if kept_at x 0 then 1 else 0
  | S j' => if kept_at x j then S (run x j') else 0
  end.

(** The same for the position before [j], none before position 0. *)
Definition run_before (x : Difflib.seqT) (j : nat) : nat :=
  match j with
  | O => 0
  | S j' => run x j'
  end.

(** The row of [j2len] before row [i], and the best block before it. *)
Definition prev_inv (x : Difflib.seqT) (i : nat) (m : gmap nat nat) : Prop :=
  (forall j v, m !! j = Some v -> v <= run_before x i /\ v <= run x j)
  /\ Difflib.j2len_get_pred m i = run_before x i.

Definition best_inv (x : Difflib.seqT) (i : nat) (bst : Difflib.best) : Prop :=
  let '(bi, bj, bk) := bst in
  bi = bj /\ bi + bk <= i /\ forall r, r < i -> run x r <= bk.

(** Inside row [i], with position [i] itself done or not. *)
Definition row_inv (x : Difflib.seqT) (i : nat) (done : bool) (st : gmap nat nat * Difflib.best) : Prop :=
  let '(new, (bi, bj, bk)) := st in
  (forall j v, new !! j = Some v -> v <= run x i /\ v <= run x j)
  /\ (done = true -> new !! i = Some (run x i))
  /\ bi = bj /\ bi + bk <= S i
  /\ (forall r, r < i -> run x r <= bk)
  /\ (done = true -> run x i <= bk).

(** An article with the URL of [Sample.voc] in capitals, without the
    trailing slash. *)
Definition url_capitals : Article :=
  Sample.article "Powder Coating Line Opens" "HTTP://B.COM/Y" None.

(** An article with the title of [Sample.energy] in capitals. *)
Definition energy_capitals : Article :=
  Sample.article "PAINT BOOTH SAVES ENERGY" "http://c.com/z" None.

(** The first keyword group finds [Sample.energy], the second one its
    copy under another URL, the others fail. *)
Definition world_two_groups : World :=
  {| NEWSAPI_KEY := "k";
     requests_get := fun _ params =>
       match Sample.index_of (param_q params) SEARCH_KEYWORD_GROUPS with
       | Some 0 => Response 200 (Sample.ok_body [Sample.raw_of Sample.energy])
       | Some 1 =>
           Response 200 (Sample.ok_body [Sample.raw_of Sample.energy_copy])
       | _ => RequestFailed
       end;
     date_days_back := Sample.clock |}.

(** * Properties *)

(** ** The sequence matcher runs to its end *)
Section DifflibFacts.
Import Difflib.
Variables a b : seqT.

Lemma extend_left_done alo blo fuel bst :
  bst.1.1 - alo <= fuel ->
  left_guard a b alo blo (extend_left a b alo blo fuel bst) = false.
Proof.
  revert bst. induction fuel as [|fuel IH]; intros [[bi bj] bk] Hf; simpl in *.
  - replace (alo <? bi) with false by (symmetry; apply Nat.ltb_ge; lia).
    reflexivity.
  - destruct (_ && _ && _) eqn:E; [|exact E].
    apply IH. simpl. lia.
Qed.

Lemma extend_left_within alo ahi blo fuel bst :
  within alo ahi bst -> within alo ahi (extend_left a b alo blo fuel bst).
Proof.
  revert bst. induction fuel as [|fuel IH]; intros [[bi bj] bk] Hw;
    simpl in *; [exact Hw|].
  destruct (_ && _ && _) eqn:E; [|exact Hw].
  apply andb_true_iff in E as [E _]. apply andb_true_iff in E as [E _].
  apply Nat.ltb_lt in E. apply IH. simpl. lia.
Qed.

Lemma extend_right_done ahi bhi fuel bst :
  ahi - (bst.1.1 + bst.2) <= fuel ->
  right_guard a b ahi bhi (extend_right a b ahi bhi fuel bst) = false.
Proof.
  revert bst. induction fuel as [|fuel IH]; intros [[bi bj] bk] Hf; simpl in *.
  - replace (bi + bk <? ahi) with false by (symmetry; apply Nat.ltb_ge; lia).
    reflexivity.
  - destruct (_ && _ && _) eqn:E; [|exact E].
    apply IH. simpl. lia.
Qed.

Lemma extend_right_within alo ahi bhi fuel bst :
  within alo ahi bst -> within alo ahi (extend_right a b ahi bhi fuel bst).
Proof.
  revert bst. induction fuel as [|fuel IH]; intros [[bi bj] bk] Hw;
    simpl in *; [exact Hw|].
  destruct (_ && _ && _) eqn:E; [|exact Hw].
  apply andb_true_iff in E as [E _]. apply andb_true_iff in E as [E _].
  apply Nat.ltb_lt in E. apply IH. simpl. lia.
Qed.

Lemma j2len_get_pred_le n j2len j :
  lengths_le n j2len -> j2len_get_pred j2len j <= n.
Proof.
  intros H. destruct j as [|j]; simpl; [lia|].
  destruct (j2len !! j) as [v|] eqn:E; simpl; [by eapply H|lia].
Qed.

Lemma inner_step_inv alo blo bhi i j2len st j :
  alo <= i -> lengths_le (i - alo) j2len ->
  lengths_le (S i - alo) st.1 -> within alo (S i) st.2 ->
  lengths_le (S i - alo) (inner_step blo bhi i j2len st j).1
  /\ within alo (S i) (inner_step blo bhi i j2len st j).2.
Proof.
  intros Hi Hj. destruct st as [new [[bi bj] bk]]. simpl. intros Hn Hw.
  destruct (j <? blo); [by split|]. destruct (bhi <=? j); [by split|].
  pose proof (j2len_get_pred_le _ _ j Hj) as Hk.
  assert (lengths_le (S i - alo) (<[j:=j2len_get_pred j2len j + 1]> new)) as Hn'.
  { intros j' v. rewrite lookup_insert. case_decide.
    - intros [= <-]. lia.
    - apply Hn. }
  destruct (bk <? _); simpl; (split; [exact Hn'|]); [lia|exact Hw].
Qed.

Lemma inner_loop_inv alo blo bhi i j2len js st :
  alo <= i -> lengths_le (i - alo) j2len ->
  lengths_le (S i - alo) st.1 -> within alo (S i) st.2 ->
  lengths_le (S i - alo) (fold_left (inner_step blo bhi i j2len) js st).1
  /\ within alo (S i) (fold_left (inner_step blo bhi i j2len) js st).2.
Proof.
  intros Hi Hj. revert st. induction js as [|j js IH]; intros st Hn Hw;
    simpl; [by split|].
  destruct (inner_step_inv alo blo bhi i j2len st j Hi Hj Hn Hw) as [Hn' Hw'].
  by apply IH.
Qed.

Lemma within_mono alo ahi ahi' bst :
  ahi <= ahi' -> within alo ahi bst -> within alo ahi' bst.
Proof. destruct bst as [[bi bj] bk]. simpl. lia. Qed.

Lemma outer_loop_within alo blo bhi ai i j2len bst :
  alo <= i -> lengths_le (i - alo) j2len -> within alo i bst ->
  within alo (i + length ai) (outer_loop b blo bhi ai i j2len bst).
Proof.
  revert i j2len bst. induction ai as [|c ai IH]; intros i j2len bst Hi Hj Hw.
  - simpl. by rewrite Nat.add_0_r.
  - simpl outer_loop.
    destruct (fold_left _ _ _) as [new bst'] eqn:E.
    assert (lengths_le (S i - alo) (∅ : gmap nat nat)) as H0.
    { intros j v Hv. rewrite lookup_empty in Hv. discriminate. }
    assert (within alo (S i) bst) as H1
      by (apply (within_mono alo i); [lia|exact Hw]).
    pose proof (inner_loop_inv alo blo bhi i j2len (b2j b c) (∅, bst) Hi Hj
                  H0 H1) as Hinv.
    rewrite E in Hinv. destruct Hinv as [Hn Hw'].
    replace (i + length (c :: ai)) with (S i + length ai) by (simpl; lia).
    apply IH; [lia|exact Hn|exact Hw'].
Qed.

Lemma find_longest_match_within alo ahi blo bhi :
  alo <= ahi -> within alo ahi (find_longest_match a b alo ahi blo bhi).
Proof.
  intros Hle. unfold find_longest_match.
  pose proof (outer_loop_within alo blo bhi (take (ahi - alo) (drop alo a))
                alo ∅ (alo, blo, 0)) as Ho.
  destruct (outer_loop _ _ _ _ _ _ _) as [[bi bj] bk].
  assert (within alo ahi (bi, bj, bk)) as Hw.
  { apply (within_mono alo (alo + length (take (ahi - alo) (drop alo a)))).
    - rewrite length_take. lia.
    - apply Ho; [lia| |simpl; lia].
      intros j v Hv. rewrite lookup_empty in Hv. discriminate. }
  pose proof (extend_left_within alo ahi blo (bi - alo) _ Hw) as Hl.
  destruct (extend_left _ _ _ _ _ _) as [[bi' bj'] bk'].
  by apply extend_right_within.
Qed.

Lemma extend_right_start ahi bhi fuel bst :
  (extend_right a b ahi bhi fuel bst).1 = bst.1.
Proof.
  revert bst. induction fuel as [|fuel IH]; intros [[bi bj] bk]; simpl;
    [reflexivity|].
  destruct (_ && _ && _); [|reflexivity]. by rewrite IH.
Qed.

(** Both extension loops of [find_longest_match] stop on their own
    condition, not for lack of rounds. *)
Lemma find_longest_match_extended alo ahi blo bhi :
  left_guard a b alo blo (find_longest_match a b alo ahi blo bhi) = false
  /\ right_guard a b ahi bhi (find_longest_match a b alo ahi blo bhi) = false.
Proof.
  unfold find_longest_match.
  destruct (outer_loop _ _ _ _ _ _ _) as [[bi bj] bk].
  pose proof (extend_left_done alo blo (bi - alo) (bi, bj, bk)) as Hl.
  destruct (extend_left _ _ _ _ _ _) as [[bi' bj'] bk'].
  split.
  - pose proof (extend_right_start ahi bhi (ahi - (bi' + bk')) (bi', bj', bk'))
      as Hs.
    destruct (extend_right _ _ _ _ _ _) as [[bi2 bj2] bk2].
    simpl in Hs. injection Hs as -> ->. apply Hl. simpl. lia.
  - apply extend_right_done. simpl. lia.
Qed.

(** More fuel than the length of the window changes nothing. *)
Lemma matches_in_fuel fuel fuel' alo ahi blo bhi :
  alo <= ahi -> ahi - alo < fuel -> ahi - alo < fuel' ->
  matches_in fuel a b alo ahi blo bhi = matches_in fuel' a b alo ahi blo bhi.
Proof.
  revert fuel' alo ahi blo bhi.
  induction fuel as [|fuel IH]; intros fuel' alo ahi blo bhi Hle Hf Hf';
    [lia|].
  destruct fuel' as [|fuel']; [lia|]. simpl.
  pose proof (find_longest_match_within alo ahi blo bhi Hle) as Hw.
  destruct (find_longest_match a b alo ahi blo bhi) as [[i j] k].
  simpl in Hw. destruct (k =? 0) eqn:Ek; [reflexivity|].
  apply Nat.eqb_neq in Ek. f_equal; [f_equal|].
  - destruct (_ && _) eqn:E; [|reflexivity].
    apply andb_true_iff in E as [E _]. apply Nat.ltb_lt in E.
    apply IH; lia.
  - destruct (_ && _) eqn:E; [|reflexivity].
    apply andb_true_iff in E as [E _]. apply Nat.ltb_lt in E.
    apply IH; lia.
Qed.

Lemma matches_fuel fuel :
  length a < fuel ->
  matches_in fuel a b 0 (length a) 0 (length b) = matches a b.
Proof. intros H. apply matches_in_fuel; lia. Qed.

End DifflibFacts.

(** ** Strings *)

Lemma lstrip_empty_iff s : PyStr.lstrip s = EmptyString <-> PyStr.all_space s = true.
Proof.
  induction s as [|c s IH]; simpl; [tauto|].
  destruct (PyStr.isspace c); simpl; [exact IH|].
  split; discriminate.
Qed.

Lemma lstrip_head s c r :
  PyStr.lstrip s = String c r -> PyStr.isspace c = false.
Proof.
  induction s as [|c' s IH]; simpl; [discriminate|].
  destruct (PyStr.isspace c') eqn:E; [exact IH|].
  intros [= -> _]. exact E.
Qed.

Lemma rstrip_chars_empty_iff p s :
  PyStr.rstrip_chars p s = EmptyString <-> forallb p (list_ascii_of_string s) = true.
Proof.
  induction s as [|c s IH]; simpl; [tauto|].
  destruct (PyStr.rstrip_chars p s) eqn:E.
  - destruct (p c); simpl; [tauto|]. split; discriminate.
  - split; [discriminate|].
    intros H. apply andb_true_iff in H as [_ H].
    apply IH in H. discriminate.
Qed.

Lemma strip_empty_iff s :
  PyStr.strip s = EmptyString <-> PyStr.all_space s = true.
Proof.
  unfold PyStr.strip, PyStr.rstrip. split.
  - intros H. apply lstrip_empty_iff.
    destruct (PyStr.lstrip s) as [|c r] eqn:E; [reflexivity|].
    apply lstrip_head in E.
    apply rstrip_chars_empty_iff in H. simpl in H.
    rewrite E in H. discriminate.
  - intros H. apply lstrip_empty_iff in H. rewrite H. reflexivity.
Qed.

Lemma truthy_false_iff s : PyStr.truthy s = false <-> s = EmptyString.
Proof. destruct s; simpl; split; congruence. Qed.

Lemma get_or_empty f :
  get_or f EmptyString = match f with Str s => s | _ => EmptyString end.
Proof. destruct f as [| |[|c s]]; reflexivity. Qed.

Lemma blank_iff f :
  PyStr.truthy (PyStr.strip (get_or f EmptyString)) = false <-> absent_or_blank f.
Proof.
  rewrite truthy_false_iff, strip_empty_iff, get_or_empty.
  destruct f; simpl; tauto.
Qed.

Lemma removed_iff f :
  String.eqb (PyStr.lower (PyStr.strip (get_or f EmptyString))) "[removed]" = true
  <-> is_removed f.
Proof.
  rewrite String.eqb_eq, get_or_empty.
  destruct f; simpl; split; try tauto; discriminate.
Qed.

(** ** Quality filter *)

(** C3: the filter rejects a raw record exactly when its title or its url
    is absent, empty or white space only, or its title or its description,
    trimmed and lowercased, is "[removed]"; the verdict is a function of
    these three fields alone. *)
Theorem is_valid_article_rejects_iff :
  (forall raw : RawArticle,
     _is_valid_article raw = false <->
     absent_or_blank (raw_title raw) \/ absent_or_blank (raw_url raw)
     \/ is_removed (raw_title raw) \/ is_removed (raw_description raw))
  /\ (forall raw raw' : RawArticle,
        raw_title raw = raw_title raw' ->
        raw_description raw = raw_description raw' ->
        raw_url raw = raw_url raw' ->
        _is_valid_article raw = _is_valid_article raw').
Proof.
  split.
  - intros raw. unfold _is_valid_article.
    rewrite <- !blank_iff, <- !removed_iff.
    destruct (PyStr.truthy (PyStr.strip (get_or (raw_title raw) EmptyString)));
      destruct (PyStr.truthy (PyStr.strip (get_or (raw_url raw) EmptyString)));
      simpl; try tauto.
    destruct (String.eqb _ _); [tauto|].
    destruct (String.eqb _ _); [tauto|].
    split; [discriminate|]. intros [?|[?|[?|?]]]; discriminate.
  - intros raw raw' Ht Hd Hu. unfold _is_valid_article.
    rewrite Ht, Hd, Hu. reflexivity.
Qed.

(** Two items that differ outside title, description and url get the
    same verdict. *)
Lemma is_valid_article_rejects_iff_witness :
  _is_valid_article Sample.raw_padded
  = _is_valid_article Sample.raw_padded_elsewhere.
Proof.
  apply (proj2 is_valid_article_rejects_iff Sample.raw_padded
           Sample.raw_padded_elsewhere); reflexivity.
Defined.

(** ** Deduplicator *)

Lemma dedup_run_snoc l a :
  dedup_run (l ++ [a]) = dedup_step (dedup_run l) a.
Proof. unfold dedup_run. rewrite fold_left_app. reflexivity. Qed.

Lemma dedup_run_app l l' :
  dedup_run (l ++ l') = fold_left dedup_step l' (dedup_run l).
Proof. unfold dedup_run. apply fold_left_app. Qed.

(** The set of seen URLs holds the normalized URLs of the accepted
    articles and nothing else. *)
Lemma seen_urls_spec l u :
  u ∈ (dedup_run l).1 <->
  exists x, x ∈ (dedup_run l).2 /\ normalized_url x = u.
Proof.
  induction l as [|a l IH] using rev_ind.
  - simpl. split; [set_solver|]. intros (x & Hx & _). inversion Hx.
  - rewrite dedup_run_snoc. destruct (dedup_run l) as [seen uniq].
    simpl in *. destruct (decide _) as [Hin|Hnin]; [exact IH|].
    destruct (is_duplicate uniq a); [exact IH|]. simpl.
    rewrite elem_of_union, elem_of_singleton, IH. split.
    + intros [->|(x & Hx & <-)].
      * exists a. split; [|reflexivity]. apply elem_of_app. right. by left.
      * exists x. split; [|reflexivity]. apply elem_of_app. by left.
    + intros (x & Hx & <-). apply elem_of_app in Hx as [Hx|Hx].
      * right. by exists x.
      * apply list_elem_of_singleton in Hx as ->. by left.
Qed.

Lemma seen_urls_url_seen l a :
  normalized_url a ∈ (dedup_run l).1 <-> url_seen (_deduplicate_articles l) a.
Proof. apply seen_urls_spec. Qed.

(** The effect of one more article on the output. *)
Lemma dedup_snoc l a :
  _deduplicate_articles (l ++ [a]) =
  if decide (normalized_url a ∈ (dedup_run l).1) then _deduplicate_articles l
  else if is_duplicate (_deduplicate_articles l) a then _deduplicate_articles l
  else _deduplicate_articles l ++ [a].
Proof.
  unfold _deduplicate_articles. rewrite dedup_run_snoc.
  destruct (dedup_run l) as [seen uniq]. simpl.
  destruct (decide _); [reflexivity|].
  destruct (is_duplicate uniq a); reflexivity.
Qed.

Lemma dedup_snoc_cases l a :
  (_deduplicate_articles (l ++ [a]) = _deduplicate_articles l
   /\ (url_seen (_deduplicate_articles l) a
       \/ is_duplicate (_deduplicate_articles l) a = true))
  \/ (_deduplicate_articles (l ++ [a]) = _deduplicate_articles l ++ [a]
      /\ ~ url_seen (_deduplicate_articles l) a
      /\ is_duplicate (_deduplicate_articles l) a = false).
Proof.
  rewrite dedup_snoc. destruct (decide _) as [Hin|Hnin].
  - left. split; [reflexivity|]. left. by apply seen_urls_url_seen.
  - destruct (is_duplicate _ a) eqn:E.
    + left. split; [reflexivity|]. by right.
    + right. split; [reflexivity|]. split; [|reflexivity].
      intros H. apply Hnin. by apply seen_urls_url_seen.
Qed.

Lemma dedup_snoc_accept l a :
  ~ url_seen (_deduplicate_articles l) a ->
  is_duplicate (_deduplicate_articles l) a = false ->
  _deduplicate_articles (l ++ [a]) = _deduplicate_articles l ++ [a].
Proof.
  intros Hu Hd. destruct (dedup_snoc_cases l a) as [[_ [H|H]]|[H _]].
  - contradiction.
  - congruence.
  - exact H.
Qed.

Lemma dedup_sublist l : _deduplicate_articles l `sublist_of` l.
Proof.
  induction l as [|a l IH] using rev_ind; [constructor|].
  destruct (dedup_snoc_cases l a) as [[-> _]|[-> _]].
  - apply sublist_app_r. exists (_deduplicate_articles l), []. rewrite app_nil_r.
    split; [reflexivity|]. split; [exact IH|apply sublist_nil_l].
  - by apply sublist_app.
Qed.

Lemma dedup_prefix l l' :
  _deduplicate_articles l `prefix_of` _deduplicate_articles (l ++ l').
Proof.
  induction l' as [|a l' IH] using rev_ind.
  - rewrite app_nil_r. reflexivity.
  - rewrite app_assoc.
    destruct (dedup_snoc_cases (l ++ l') a) as [[-> _]|[-> _]].
    + exact IH.
    + by apply prefix_app_r.
Qed.

Lemma is_duplicate_true u a :
  is_duplicate u a = true <->
  exists x, x ∈ u /\ _is_similar_title (title a) (title x) default_threshold = true.
Proof.
  unfold is_duplicate. rewrite existsb_exists.
  split; intros (x & Hx & Hs); exists x; split; try exact Hs;
    by apply list_elem_of_In.
Qed.

Lemma is_duplicate_false u a :
  is_duplicate u a = false <->
  forall x, x ∈ u -> _is_similar_title (title a) (title x) default_threshold = false.
Proof.
  split.
  - intros H x Hx.
    destruct (_is_similar_title _ _ _) eqn:E; [|reflexivity].
    rewrite <- H. symmetry. apply is_duplicate_true. by exists x.
  - intros H. destruct (is_duplicate u a) eqn:E; [|reflexivity].
    apply is_duplicate_true in E as (x & Hx & Hs).
    rewrite (H x Hx) in Hs. discriminate.
Qed.

(** C4: deduplicating the output of the deduplicator returns it
    unchanged. *)
Theorem deduplicate_idempotent (l : list Article) :
  _deduplicate_articles (_deduplicate_articles l) = _deduplicate_articles l.
Proof.
  induction l as [|a l IH] using rev_ind; [reflexivity|].
  destruct (dedup_snoc_cases l a) as [[-> _]|(-> & Hu & Hd)]; [exact IH|].
  rewrite dedup_snoc_accept; rewrite IH; auto.
Qed.

Lemma accepted_stays l1 a l2 :
  _deduplicate_articles (l1 ++ [a]) = _deduplicate_articles l1 ++ [a] ->
  a ∈ _deduplicate_articles (l1 ++ a :: l2).
Proof.
  intros H. destruct (dedup_prefix (l1 ++ [a]) l2) as [k Hk].
  rewrite <- app_assoc in Hk. simpl in Hk. rewrite Hk, H.
  rewrite !elem_of_app. left. right. by left.
Qed.

Lemma conflicting_rejected u a b :
  a ∈ u -> conflicts_with b a ->
  url_seen u b \/ is_duplicate u b = true.
Proof.
  intros Ha [Hurl|Hsim].
  - left. exists a. split; [exact Ha|]. by symmetry.
  - right. apply is_duplicate_true. by exists a.
Qed.

Lemma dedup_first_wins l : first_wins (_deduplicate_articles l).
Proof.
  induction l as [|a l IH] using rev_ind.
  - intros i j x y _ Hx. inversion Hx.
  - destruct (dedup_snoc_cases l a) as [[-> _]|(-> & Hu & Hd)]; [exact IH|].
    intros i j x y Hij Hx Hy.
    destruct (decide (j < length (_deduplicate_articles l))) as [Hj|Hj].
    + rewrite lookup_app_l in Hx, Hy by lia. exact (IH i j x y Hij Hx Hy).
    + assert (j = length (_deduplicate_articles l)) as ->.
      { apply lookup_lt_Some in Hy. rewrite length_app in Hy. simpl in Hy. lia. }
      rewrite lookup_app_l in Hx by exact Hij.
      rewrite list_lookup_middle in Hy by reflexivity.
      injection Hy as <-.
      assert (x ∈ _deduplicate_articles l) as Hin
        by (apply list_elem_of_lookup; eauto).
      split.
      * intros Heq. apply Hu. by exists x.
      * by eapply is_duplicate_false.
Qed.

(** C1, as the code has it: the output is a subsequence of the input;
    an accepted article stays accepted in its place whatever follows; an
    article that conflicts with an earlier article that was accepted (same
    normalized URL, or its title similar to the earlier one) is dropped;
    and an article that conflicts with no article accepted before it is
    accepted at its turn, after the articles accepted before it and
    whatever dropped articles it may conflict with, and is in the
    output. *)
Theorem dedup_subsequence_accepted_first_wins (l : list Article) :
  _deduplicate_articles l `sublist_of` l
  /\ (forall l1 l2, l = l1 ++ l2 ->
        _deduplicate_articles l1 `prefix_of` _deduplicate_articles l)
  /\ (forall l1 a l2 b l3, l = l1 ++ a :: l2 ++ b :: l3 ->
        _deduplicate_articles (l1 ++ [a]) = _deduplicate_articles l1 ++ [a] ->
        conflicts_with b a ->
        _deduplicate_articles (l1 ++ a :: l2 ++ [b])
        = _deduplicate_articles (l1 ++ a :: l2))
  /\ (forall l1 b l2, l = l1 ++ b :: l2 ->
        (forall a, a ∈ _deduplicate_articles l1 -> ~ conflicts_with b a) ->
        _deduplicate_articles (l1 ++ [b]) = _deduplicate_articles l1 ++ [b]
        /\ b ∈ _deduplicate_articles l).
Proof.
  split; [apply dedup_sublist|]. split; [|split].
  - intros l1 l2 ->. apply dedup_prefix.
  - intros l1 a l2 b l3 _ Hacc Hconf.
    pose proof (accepted_stays l1 a l2 Hacc) as Hin.
    destruct (conflicting_rejected _ a b Hin Hconf) as [Hu|Hd];
      replace (l1 ++ a :: l2 ++ [b]) with ((l1 ++ a :: l2) ++ [b])
        by (rewrite <- app_assoc; reflexivity);
      destruct (dedup_snoc_cases (l1 ++ a :: l2) b) as [[-> _]|(_ & Hu' & Hd')];
      try reflexivity; try contradiction; congruence.
  - intros l1 b l2 -> Hnone.
    assert (_deduplicate_articles (l1 ++ [b]) = _deduplicate_articles l1 ++ [b])
      as Hacc.
    { apply dedup_snoc_accept.
      - intros (a & Ha & Hurl). apply (Hnone a Ha). left. by symmetry.
      - apply is_duplicate_false. intros a Ha.
        destruct (_is_similar_title _ _ _) eqn:E; [|reflexivity].
        destruct (Hnone a Ha). by right. }
    split; [exact Hacc|]. by apply accepted_stays.
Qed.

(** In [energy; energy_copy; voc] the copy of the accepted [energy] is
    dropped where it stands, and [voc], which conflicts with the dropped
    copy only, is accepted. *)
Lemma dedup_subsequence_accepted_first_wins_witness :
  _deduplicate_articles ([] ++ Sample.energy :: [] ++ [Sample.energy_copy])
  = _deduplicate_articles ([] ++ Sample.energy :: [])
  /\ _deduplicate_articles ([Sample.energy; Sample.energy_copy] ++ [Sample.voc])
     = _deduplicate_articles [Sample.energy; Sample.energy_copy] ++ [Sample.voc]
  /\ Sample.voc
     ∈ _deduplicate_articles [Sample.energy; Sample.energy_copy; Sample.voc].
Proof.
  split.
  - apply (proj1 (proj2 (proj2 (dedup_subsequence_accepted_first_wins
             [Sample.energy; Sample.energy_copy; Sample.voc]))) []
             Sample.energy [] Sample.energy_copy [Sample.voc]).
    + reflexivity.
    + vm_compute. reflexivity.
    + right. vm_compute. reflexivity.
  - apply (proj2 (proj2 (proj2 (dedup_subsequence_accepted_first_wins
             [Sample.energy; Sample.energy_copy; Sample.voc])))
             [Sample.energy; Sample.energy_copy] Sample.voc []).
    + reflexivity.
    + intros a Ha.
      replace (_deduplicate_articles [Sample.energy; Sample.energy_copy])
        with [Sample.energy] in Ha by (vm_compute; reflexivity).
      apply list_elem_of_singleton in Ha as ->.
      intros [H|H]; revert H; vm_compute; discriminate.
Defined.

(** C1 as stated fails: [energy_copy] and [voc] conflict (they share a
    normalized URL), yet the earlier of the two is dropped and the later
    one kept, the earlier one having lost to [energy] on its title. *)
Lemma dedup_earlier_of_conflicting_pair_dropped :
  [Sample.energy; Sample.energy_copy; Sample.voc] !! 1 = Some Sample.energy_copy
  /\ [Sample.energy; Sample.energy_copy; Sample.voc] !! 2 = Some Sample.voc
  /\ conflicts_with Sample.voc Sample.energy_copy
  /\ (_deduplicate_articles [Sample.energy; Sample.energy_copy; Sample.voc]
      = [Sample.energy; Sample.voc])
  /\ (Sample.energy_copy ∉ [Sample.energy; Sample.voc]).
Proof.
  split; [reflexivity|]. split; [reflexivity|]. split.
  - left. vm_compute. reflexivity.
  - split; [vm_compute; reflexivity|].
    intros H. apply list_elem_of_In in H. simpl in H.
    destruct H as [H|[H|[]]]; discriminate H.
Qed.

(** C10: an article that passes the URL check and is rejected for its
    title leaves the state of the loop as it was, its URL unrecorded; a
    later article with the same normalized URL, which no accepted article
    has, passes the URL check and is accepted when its title is similar
    to no accepted title. *)
Theorem title_rejected_url_not_recorded (l1 l2 : list Article) (b c : Article) :
  normalized_url b ∉ (dedup_run l1).1 ->
  is_duplicate (_deduplicate_articles l1) b = true ->
  normalized_url c = normalized_url b ->
  ~ url_seen (_deduplicate_articles (l1 ++ b :: l2)) c ->
  dedup_run (l1 ++ [b]) = dedup_run l1
  /\ (normalized_url c ∉ (dedup_run (l1 ++ b :: l2)).1)
  /\ (is_duplicate (_deduplicate_articles (l1 ++ b :: l2)) c = false ->
      _deduplicate_articles (l1 ++ b :: l2 ++ [c])
      = _deduplicate_articles (l1 ++ b :: l2) ++ [c]).
Proof.
  intros Hurl Hdup Hsame Hnot. split; [|split].
  - rewrite dedup_run_snoc. unfold _deduplicate_articles in Hdup.
    destruct (dedup_run l1) as [seen uniq]. simpl in *.
    destruct (decide _); [reflexivity|]. rewrite Hdup. reflexivity.
  - intros H. apply Hnot. by apply seen_urls_url_seen.
  - intros Hd.
    replace (l1 ++ b :: l2 ++ [c]) with ((l1 ++ b :: l2) ++ [c])
      by (rewrite <- app_assoc; reflexivity).
    by apply dedup_snoc_accept.
Qed.

(** [voc] comes after [energy_copy], which was rejected for its title,
    and is accepted with the URL of [energy_copy]. *)
Lemma title_rejected_url_not_recorded_witness :
  dedup_run ([Sample.energy] ++ [Sample.energy_copy]) = dedup_run [Sample.energy]
  /\ (normalized_url Sample.voc
      ∉ (dedup_run ([Sample.energy] ++ Sample.energy_copy :: [])).1)
  /\ (is_duplicate
        (_deduplicate_articles ([Sample.energy] ++ Sample.energy_copy :: []))
        Sample.voc = false ->
      _deduplicate_articles
        ([Sample.energy] ++ Sample.energy_copy :: [] ++ [Sample.voc])
      = _deduplicate_articles ([Sample.energy] ++ Sample.energy_copy :: [])
        ++ [Sample.voc]).
Proof.
  apply (title_rejected_url_not_recorded [Sample.energy] []
           Sample.energy_copy Sample.voc).
  - vm_compute. discriminate.
  - vm_compute. reflexivity.
  - vm_compute. reflexivity.
  - intros (x & Hx & Heq). revert Hx Heq. vm_compute. intros Hx Heq.
    apply list_elem_of_In in Hx. simpl in Hx.
    destruct Hx as [<-|[]]. discriminate Heq.
Defined.

(** ** Sorting by publish time *)
Section SortFacts.
Context {A : Type} (key : A -> datetime).

Lemma insert_desc_perm x l : insert_desc key x l ≡ₚ x :: l.
Proof.
  induction l as [|y l IH]; simpl; [reflexivity|].
  destruct (_ <? _)%Z; [|reflexivity].
  rewrite IH. apply Permutation_swap.
Qed.

Lemma stable_desc_perm l : stable_desc key l ≡ₚ l.
Proof.
  induction l as [|x l IH]; simpl; [reflexivity|].
  rewrite insert_desc_perm. by f_equiv.
Qed.

Lemma insert_desc_sorted x l :
  StronglySorted (not_older key) l ->
  StronglySorted (not_older key) (insert_desc key x l).
Proof.
  induction l as [|y l IH]; simpl; intros Hs.
  - repeat constructor.
  - apply StronglySorted_cons in Hs as [Hy Hl].
    destruct (_ <? _)%Z eqn:E.
    + apply Z.ltb_lt in E. apply StronglySorted_cons. split; [|by apply IH].
      rewrite insert_desc_perm. constructor; [|exact Hy].
      unfold not_older. lia.
    + apply Z.ltb_ge in E. apply StronglySorted_cons. split.
      * constructor; [exact E|].
        eapply Forall_impl; [exact Hy|]. unfold not_older. intros z Hz.
        simpl in Hz. lia.
      * apply StronglySorted_cons. by split.
Qed.

Lemma stable_desc_sorted l : StronglySorted (not_older key) (stable_desc key l).
Proof.
  induction l as [|x l IH]; simpl; [constructor|].
  by apply insert_desc_sorted.
Qed.

(** Stability: the articles that share a key keep their order. *)
Lemma insert_desc_stable k x l :
  filter (fun y => instant (key y) = k) (insert_desc key x l)
  = filter (fun y => instant (key y) = k) (x :: l).
Proof.
  induction l as [|y l IH]; simpl; [reflexivity|].
  destruct (_ <? _)%Z eqn:E; [|reflexivity].
  apply Z.ltb_lt in E.
  rewrite (filter_cons _ y), IH, !filter_cons.
  repeat case_decide; try reflexivity; lia.
Qed.

Lemma stable_desc_stable k l :
  filter (fun y => instant (key y) = k) (stable_desc key l)
  = filter (fun y => instant (key y) = k) l.
Proof.
  induction l as [|x l IH]; simpl; [reflexivity|].
  rewrite insert_desc_stable, !filter_cons, IH. reflexivity.
Qed.

Lemma lt_same_kind d1 d2 :
  is_aware d1 = is_aware d2 -> lt d1 d2 = inr (instant d1 <? instant d2)%Z.
Proof. destruct d1, d2; simpl; intros H; try discriminate H; reflexivity. Qed.

Lemma lt_mixed d1 d2 : is_aware d1 <> is_aware d2 -> lt d1 d2 = inl TypeError.
Proof. destruct d1, d2; simpl; intros H; try reflexivity; contradiction. Qed.

Lemma insert_lt_same_kind x l :
  Forall (fun y => is_aware (key y) = is_aware (key x)) l ->
  insert_lt key x l = inr (insert_desc key x l).
Proof.
  induction l as [|y l IH]; simpl; intros Hl; [reflexivity|].
  apply Forall_cons in Hl as [Hy Hl].
  rewrite (lt_same_kind (key x) (key y)) by done.
  destruct (_ <? _)%Z; [|reflexivity].
  rewrite IH by exact Hl. reflexivity.
Qed.

Lemma comparable_keys_kind l :
  comparable_keys key l = true <->
  exists b, Forall (fun y => is_aware (key y) = b) l.
Proof.
  unfold comparable_keys. rewrite orb_true_iff, !forallb_forall. split.
  - intros [H|H]; [exists true|exists false]; apply Forall_forall;
      intros y Hy; apply list_elem_of_In in Hy; specialize (H y Hy).
    + exact H.
    + by apply negb_true_iff.
  - intros [[] H]; [left|right]; intros y Hy; apply list_elem_of_In in Hy;
      rewrite Forall_forall in H; specialize (H y Hy).
    + exact H.
    + by apply negb_true_iff.
Qed.

(** The sort raises exactly when aware and naive keys are mixed, and
    otherwise returns the stable descending order. *)
Lemma sort_reverse_spec l :
  sort_reverse key l =
  if comparable_keys key l then inr (stable_desc key l) else inl TypeError.
Proof.
  induction l as [|x l IH]; [reflexivity|].
  simpl sort_reverse. rewrite IH.
  destruct (comparable_keys key l) eqn:El.
  - apply comparable_keys_kind in El as [b Hb].
    destruct (comparable_keys key (x :: l)) eqn:Ex.
    + apply comparable_keys_kind in Ex as [b' Hb'].
      apply Forall_cons in Hb' as [Hx Hb'].
      simpl. apply insert_lt_same_kind.
      rewrite stable_desc_perm. rewrite Hx. exact Hb'.
    + destruct (stable_desc key l) as [|y s] eqn:Es.
      * apply (f_equal length) in Es.
        rewrite (Permutation_length (stable_desc_perm l)) in Es.
        destruct l; [|simpl in Es; discriminate Es].
        unfold comparable_keys in Ex. simpl in Ex.
        destruct (is_aware (key x)); discriminate Ex.
      * assert (y ∈ l) as Hy.
        { rewrite <- (stable_desc_perm l), Es. by left. }
        pose proof (proj1 (Forall_forall _ _) Hb y Hy) as Hby.
        simpl in Hby. simpl. rewrite lt_mixed; [reflexivity|].
        intros Hk. rewrite Hby in Hk.
        assert (comparable_keys key (x :: l) = true) as Hc.
        { apply comparable_keys_kind. exists b. by constructor. }
        congruence.
  - destruct (comparable_keys key (x :: l)) eqn:Ex; [|reflexivity].
    apply comparable_keys_kind in Ex as [b Hb].
    apply Forall_cons in Hb as [_ Hb].
    assert (comparable_keys key l = true) as Hc
      by (apply comparable_keys_kind; by exists b).
    congruence.
Qed.

End SortFacts.

(** ** Building articles from raw items *)

Lemma rstrip_chars_idem p s :
  PyStr.rstrip_chars p (PyStr.rstrip_chars p s) = PyStr.rstrip_chars p s.
Proof.
  induction s as [|c s IH]; simpl; [reflexivity|].
  destruct (PyStr.rstrip_chars p s) as [|c' r] eqn:E.
  - destruct (p c) eqn:Ep; simpl; [reflexivity|]. rewrite Ep. reflexivity.
  - change (PyStr.rstrip_chars p (String c (String c' r)))
      with (match PyStr.rstrip_chars p (String c' r) with
            | EmptyString => if p c then EmptyString else String c EmptyString
            | r0 => String c r0
            end).
    rewrite IH. reflexivity.
Qed.

Lemma lstrip_fixed s :
  match s with EmptyString => True | String c _ => PyStr.isspace c = false end ->
  PyStr.lstrip s = s.
Proof. destruct s as [|c s]; simpl; [reflexivity|]. intros ->. reflexivity. Qed.

Lemma rstrip_keeps_head c s :
  PyStr.isspace c = false ->
  exists r, PyStr.rstrip (String c s) = String c r.
Proof.
  intros Hc. unfold PyStr.rstrip. simpl.
  destruct (PyStr.rstrip_chars PyStr.isspace s) as [|c' r].
  - rewrite Hc. by eexists.
  - by eexists.
Qed.

Lemma strip_trimmed s : trimmed (PyStr.strip s).
Proof.
  unfold trimmed, PyStr.strip.
  destruct (PyStr.lstrip s) as [|c t] eqn:E; [reflexivity|].
  apply lstrip_head in E.
  destruct (rstrip_keeps_head c t E) as [r Hr].
  rewrite lstrip_fixed by (rewrite Hr; exact E).
  apply rstrip_chars_idem.
Qed.

Lemma valid_fields raw :
  _is_valid_article raw = true ->
  exists t u, raw_title raw = Str t /\ raw_url raw = Str u
    /\ PyStr.strip t <> EmptyString /\ PyStr.strip u <> EmptyString.
Proof.
  unfold _is_valid_article. rewrite !get_or_empty.
  destruct (raw_title raw) as [| |t], (raw_url raw) as [| |u];
    try (simpl; discriminate);
    try (destruct (PyStr.truthy (PyStr.strip t)); simpl; discriminate).
  destruct (PyStr.strip t) eqn:Et; [simpl; discriminate|].
  destruct (PyStr.strip u) eqn:Eu; [simpl; discriminate|].
  intros _. exists t, u. rewrite Et, Eu. done.
Qed.

(** An item that passes the filter gives its article, unless its
    [source] is no object: then reading the source name raises. *)
Lemma make_article_cases raw :
  _is_valid_article raw = true ->
  (raw_source raw = SourceNotObject /\ make_article raw = inl AttributeError)
  \/ (raw_source raw <> SourceNotObject
      /\ exists a, make_article raw = inr a /\ built_from raw a).
Proof.
  intros Hv. destruct (valid_fields raw Hv) as (t & u & Ht & Hu & Hnt & Hnu).
  unfold built_from, source_omitted, make_article, source_name.
  rewrite Ht, Hu. simpl.
  destruct (raw_source raw) as [| |src] eqn:Es.
  - right. split; [discriminate|]. eexists. split; [reflexivity|].
    split; [reflexivity|]. simpl.
    repeat split; try apply strip_trimmed; assumption.
  - left. split; reflexivity.
  - right. split; [discriminate|]. eexists. split; [reflexivity|].
    split; [reflexivity|]. simpl.
    repeat split; try apply strip_trimmed; try assumption.
    destruct (name src) as [| |n]; try reflexivity.
    intros ->. reflexivity.
Qed.

(** A list of raw items that is built gives one article per item that
    passes the filter, in order. *)
Lemma build_articles_inr raw_articles acc res :
  build_articles raw_articles acc = inr res ->
  exists articles,
    res = acc ++ articles
    /\ Forall2 built_from
         (filter (fun raw => _is_valid_article raw = true) raw_articles)
         articles.
Proof.
  revert acc. induction raw_articles as [|raw rest IH]; intros acc.
  - simpl. intros [= <-]. exists []. rewrite app_nil_r.
    split; [reflexivity|constructor].
  - simpl build_articles. rewrite filter_cons.
    destruct (_is_valid_article raw) eqn:Hv; simpl.
    + destruct (make_article_cases raw Hv) as [[_ ->]|(_ & a & Hm & Ha)];
        [discriminate|].
      rewrite Hm. intros H. destruct (IH _ H) as (arts & -> & Hf).
      exists (a :: arts). rewrite <- app_assoc. split; [reflexivity|].
      by constructor.
    + apply IH.
Qed.

(** The only way the loop over the raw items raises. *)
Lemma build_articles_inl raw_articles acc e :
  build_articles raw_articles acc = inl e ->
  e = AttributeError
  /\ exists raw, raw ∈ raw_articles /\ _is_valid_article raw = true
       /\ raw_source raw = SourceNotObject.
Proof.
  revert acc. induction raw_articles as [|raw rest IH]; intros acc.
  - discriminate.
  - simpl build_articles.
    destruct (_is_valid_article raw) eqn:Hv; simpl.
    + destruct (make_article_cases raw Hv) as [[Hs ->]|(_ & a & -> & _)].
      * intros [= <-]. split; [reflexivity|]. exists raw.
        split; [by left|]. by split.
      * intros H. destruct (IH _ H) as (-> & raw' & Hin & Hr).
        split; [reflexivity|]. exists raw'. split; [by right|exact Hr].
    + intros H. destruct (IH _ H) as (-> & raw' & Hin & Hr).
      split; [reflexivity|]. exists raw'. split; [by right|exact Hr].
Qed.

Lemma build_articles_readable raw_articles acc :
  sources_readable raw_articles ->
  exists articles,
    build_articles raw_articles acc = inr (acc ++ articles)
    /\ Forall2 built_from
         (filter (fun raw => _is_valid_article raw = true) raw_articles)
         articles.
Proof.
  intros Hr. destruct (build_articles raw_articles acc) as [e|res] eqn:E.
  - apply build_articles_inl in E as (_ & raw & Hin & Hv & Hs).
    unfold sources_readable in Hr. rewrite Forall_forall in Hr.
    destruct (Hr raw Hin Hv Hs).
  - destruct (build_articles_inr _ _ _ E) as (arts & -> & Hf). by exists arts.
Qed.

(** C9, as the code has it.  Whenever the loop over the raw items
    returns, it has built one article per item that passes the filter, in
    order, and none for the others; each article has its title,
    description, url and source trimmed, title and url not empty, the
    source "Unknown" when the provider gives none, and its publish time and
    image URL are the provider's values as they came.  The loop returns
    for every list whose items that pass the filter have a [source] that
    is missing or an object, and for those lists only: otherwise it raises
    [AttributeError]. *)
Theorem build_articles_constructs_valid_only (raw_articles : list RawArticle) :
  (forall articles,
     build_articles raw_articles [] = inr articles ->
     Forall2 built_from
       (filter (fun raw => _is_valid_article raw = true) raw_articles)
       articles)
  /\ (sources_readable raw_articles ->
      exists articles, build_articles raw_articles [] = inr articles)
  /\ (forall e,
        build_articles raw_articles [] = inl e ->
        e = AttributeError
        /\ exists raw, raw ∈ raw_articles /\ _is_valid_article raw = true
             /\ raw_source raw = SourceNotObject).
Proof.
  split; [|split].
  - intros articles H.
    destruct (build_articles_inr _ _ _ H) as (arts & -> & Hf). exact Hf.
  - intros Hr. destruct (build_articles_readable raw_articles [] Hr)
      as (arts & E & _).
    by eexists.
  - apply build_articles_inl.
Qed.

(** The padded item and a placeholder item: one article, built from the
    padded item. *)
Lemma build_articles_constructs_valid_only_witness :
  Forall2 built_from
    (filter (fun raw => _is_valid_article raw = true)
            [Sample.raw_removed; Sample.raw_padded])
    [Sample.article_padded]
  /\ exists articles,
       build_articles [Sample.raw_removed; Sample.raw_padded] [] = inr articles.
Proof.
  split.
  - apply (proj1 (build_articles_constructs_valid_only
                    [Sample.raw_removed; Sample.raw_padded])).
    vm_compute. reflexivity.
  - apply (proj1 (proj2 (build_articles_constructs_valid_only
                           [Sample.raw_removed; Sample.raw_padded]))).
    repeat constructor; vm_compute; discriminate.
Defined.

(** C9 as stated fails on the publish time: the item passes the filter
    and its article keeps the white space around [publishedAt]. *)
Lemma published_at_not_trimmed :
  _is_valid_article Sample.raw_padded = true
  /\ build_articles [Sample.raw_padded] [] = inr [Sample.article_padded]
  /\ published_at Sample.article_padded = Some " 2024-03-01T10:00:00Z "
  /\ PyStr.strip " 2024-03-01T10:00:00Z " <> " 2024-03-01T10:00:00Z ".
Proof.
  split; [vm_compute; reflexivity|]. split; [vm_compute; reflexivity|].
  split; [reflexivity|]. vm_compute. discriminate.
Qed.

(** ** Fetching and collecting *)

(** The request is logged whatever comes of it. *)
Lemma fetch_log W query from_date to_date page_size log :
  (_fetch_articles_for_query W query from_date to_date page_size log).2
  = log ++ [build_params W query from_date to_date page_size].
Proof.
  unfold _fetch_articles_for_query, bind, http_get, ret, lift.
  destruct (requests_get W _ _) as [|code body]; [reflexivity|].
  destruct (raise_for_status code); reflexivity.
Qed.

Lemma fetch_failed W query from_date to_date page_size log :
  query_fails (requests_get W NEWSAPI_BASE_URL
                 (build_params W query from_date to_date page_size)) ->
  _fetch_articles_for_query W query from_date to_date page_size log
  = (inr [], log ++ [build_params W query from_date to_date page_size]).
Proof.
  unfold _fetch_articles_for_query, bind, http_get, ret, lift, query_fails.
  destruct (requests_get W _ _) as [|code body]; [reflexivity|].
  intros [->|(data & -> & Hs)]; [reflexivity|].
  destruct (raise_for_status code); [reflexivity|].
  unfold parse_body. rewrite bool_decide_true by exact Hs. reflexivity.
Qed.

Lemma parse_body_readable body :
  body_readable body -> exists articles, parse_body body = inr articles.
Proof.
  intros (data & -> & H). unfold parse_body.
  case_bool_decide as Hs; [by eexists|].
  destruct H as [H|H]; [contradiction|].
  destruct (body_articles data) as [| |raws]; [by eexists|destruct H|].
  destruct (build_articles_readable raws [] H) as (arts & -> & _). by eexists.
Qed.

Lemma fetch_readable W query from_date to_date page_size log :
  outcome_readable (requests_get W NEWSAPI_BASE_URL
                      (build_params W query from_date to_date page_size)) ->
  exists articles,
    _fetch_articles_for_query W query from_date to_date page_size log
    = (inr articles, log ++ [build_params W query from_date to_date page_size]).
Proof.
  unfold _fetch_articles_for_query, bind, http_get, ret, lift, outcome_readable.
  destruct (requests_get W _ _) as [|code body]; [by eexists|].
  intros [->|H]; [by eexists|].
  destruct (raise_for_status code); [by eexists|].
  destruct (parse_body_readable body H) as [arts ->]. by eexists.
Qed.

(** The loop over queries that all fail returns the articles it had,
    after one request per query. *)
Lemma collect_loop_all_fail W queries from_date to_date acc log :
  (forall query, query ∈ queries ->
     query_fails (requests_get W NEWSAPI_BASE_URL
                    (build_params W query from_date to_date ARTICLES_PER_QUERY))) ->
  collect_loop W queries from_date to_date acc log
  = (inr acc,
     log ++ map (fun query =>
                   build_params W query from_date to_date ARTICLES_PER_QUERY)
                queries).
Proof.
  revert log. induction queries as [|query rest IH]; intros log Hf.
  - simpl. by rewrite app_nil_r.
  - simpl. unfold bind.
    rewrite (fetch_failed W query from_date to_date _ log)
      by (apply Hf; by left).
    rewrite app_nil_r, IH by (intros q Hq; apply Hf; by right).
    by rewrite <- app_assoc.
Qed.

(** The loop over queries with readable outcomes returns, after one
    request per query. *)
Lemma collect_loop_readable W queries from_date to_date acc log :
  (forall query, query ∈ queries ->
     outcome_readable
       (requests_get W NEWSAPI_BASE_URL
          (build_params W query from_date to_date ARTICLES_PER_QUERY))) ->
  exists all_articles,
    collect_loop W queries from_date to_date acc log
    = (inr all_articles,
       log ++ map (fun query =>
                     build_params W query from_date to_date ARTICLES_PER_QUERY)
                  queries).
Proof.
  revert acc log. induction queries as [|query rest IH]; intros acc log Hr.
  - exists acc. simpl. by rewrite app_nil_r.
  - simpl. unfold bind.
    destruct (fetch_readable W query from_date to_date ARTICLES_PER_QUERY log)
      as [arts ->]; [apply Hr; by left|].
    destruct (IH (acc ++ arts)
                (log ++ [build_params W query from_date to_date
                           ARTICLES_PER_QUERY]))
      as [all ->]; [intros q Hq; apply Hr; by right|].
    exists all. by rewrite <- app_assoc.
Qed.

(** The requests of the loop: one per query, in order, up to the first
    query whose fetch raises; one per query when the loop returns. *)
Lemma collect_loop_log W queries from_date to_date acc log :
  exists k,
    k <= length queries
    /\ (queries <> [] -> 0 < k)
    /\ (collect_loop W queries from_date to_date acc log).2
       = log ++ map (fun query =>
                       build_params W query from_date to_date
                         ARTICLES_PER_QUERY)
                    (take k queries)
    /\ (forall all_articles,
          (collect_loop W queries from_date to_date acc log).1
          = inr all_articles ->
          k = length queries).
Proof.
  revert acc log. induction queries as [|query rest IH]; intros acc log.
  - exists 0. simpl. rewrite app_nil_r. done.
  - simpl. unfold bind.
    pose proof (fetch_log W query from_date to_date ARTICLES_PER_QUERY log)
      as Hl.
    destruct (_fetch_articles_for_query W query from_date to_date
                ARTICLES_PER_QUERY log) as [[e|arts] log1];
      simpl in Hl; subst log1.
    + exists 1. simpl. split; [lia|]. split; [lia|]. split; [reflexivity|]. discriminate.
    + destruct (IH (acc ++ arts)
                  (log ++ [build_params W query from_date to_date
                             ARTICLES_PER_QUERY]))
        as (k & Hk & _ & Hlog & Hall).
      exists (S k). simpl. split; [lia|]. split; [lia|].
      split; [by rewrite Hlog, <- app_assoc|].
      intros all H. by rewrite (Hall all H).
Qed.

(** C6, as the code has it: a query whose request raises, whose reply
    has an error status code (400 to 599) or whose reply is a JSON object
    with a status other than "ok" yields the empty list without raising,
    and the loop goes on to the remaining queries with the articles it
    had; when the remaining queries fail in these ways too, the loop
    returns those articles, after one request per query. *)
Theorem failed_query_contributes_nothing (W : World) (query : string)
    (rest : list string) (from_date to_date : string) (acc : list Article)
    (log : list Request) :
  query_fails (requests_get W NEWSAPI_BASE_URL
                 (build_params W query from_date to_date ARTICLES_PER_QUERY)) ->
  _fetch_articles_for_query W query from_date to_date ARTICLES_PER_QUERY log
  = (inr [], log ++ [build_params W query from_date to_date ARTICLES_PER_QUERY])
  /\ collect_loop W (query :: rest) from_date to_date acc log
     = collect_loop W rest from_date to_date acc
         (log ++ [build_params W query from_date to_date ARTICLES_PER_QUERY])
  /\ ((forall q, q ∈ rest ->
         query_fails
           (requests_get W NEWSAPI_BASE_URL
              (build_params W q from_date to_date ARTICLES_PER_QUERY))) ->
      collect_loop W (query :: rest) from_date to_date acc log
      = (inr acc,
         log ++ map (fun q =>
                       build_params W q from_date to_date ARTICLES_PER_QUERY)
                    (query :: rest))).
Proof.
  intros Hf. pose proof (fetch_failed W query from_date to_date _ log Hf) as E.
  split; [exact E|]. split.
  - simpl. unfold bind. rewrite E, app_nil_r. reflexivity.
  - intros Hrest. apply collect_loop_all_fail.
    intros q Hq. apply elem_of_cons in Hq as [->|Hq]; [exact Hf|by apply Hrest].
Qed.

(** In [world_mixed] the request of the second keyword group fails and
    the loop continues with the groups after it. *)
Lemma failed_query_contributes_nothing_witness :
  _fetch_articles_for_query Sample.world_mixed
    (any_of "industrial coating" "powder coating" "surface finishing")
    "2024-03-01" "2024-03-08" ARTICLES_PER_QUERY []
  = (inr [], [] ++ [build_params Sample.world_mixed
                      (any_of "industrial coating" "powder coating"
                         "surface finishing")
                      "2024-03-01" "2024-03-08" ARTICLES_PER_QUERY])
  /\ collect_loop Sample.world_mixed
       (any_of "industrial coating" "powder coating" "surface finishing"
        :: drop 2 SEARCH_KEYWORD_GROUPS)
       "2024-03-01" "2024-03-08" [Sample.dated_naive] []
     = collect_loop Sample.world_mixed (drop 2 SEARCH_KEYWORD_GROUPS)
         "2024-03-01" "2024-03-08" [Sample.dated_naive]
         ([] ++ [build_params Sample.world_mixed
                   (any_of "industrial coating" "powder coating"
                      "surface finishing")
                   "2024-03-01" "2024-03-08" ARTICLES_PER_QUERY])
  /\ ((forall q, q ∈ drop 2 SEARCH_KEYWORD_GROUPS ->
         query_fails
           (requests_get Sample.world_mixed NEWSAPI_BASE_URL
              (build_params Sample.world_mixed q "2024-03-01" "2024-03-08"
                 ARTICLES_PER_QUERY))) ->
      collect_loop Sample.world_mixed
        (any_of "industrial coating" "powder coating" "surface finishing"
         :: drop 2 SEARCH_KEYWORD_GROUPS)
        "2024-03-01" "2024-03-08" [Sample.dated_naive] []
      = (inr [Sample.dated_naive],
         [] ++ map (fun q =>
                      build_params Sample.world_mixed q "2024-03-01"
                        "2024-03-08" ARTICLES_PER_QUERY)
                   (any_of "industrial coating" "powder coating"
                      "surface finishing"
                    :: drop 2 SEARCH_KEYWORD_GROUPS))).
Proof.
  apply (failed_query_contributes_nothing Sample.world_mixed).
  vm_compute. exact I.
Defined.

(** C6 as stated fails on the status codes: [raise_for_status] raises
    for the codes 400 to 599 only.  In [world_unsuccessful] the reply to
    the first keyword group has status 300 and its article is taken; the
    reply to the second group has status 304 and no body, the fetch raises
    when it decodes the body, and the collector raises with it, after two
    requests. *)
Lemma non_success_status_not_isolated :
  requests_get Sample.world_unsuccessful NEWSAPI_BASE_URL
    (build_params Sample.world_unsuccessful
       (any_of "paint booth" "spray booth" "coating booth")
       "2024-03-01" "2024-03-08" ARTICLES_PER_QUERY)
  = Response 300 (Sample.ok_body [Sample.raw_of Sample.energy])
  /\ (_fetch_articles_for_query Sample.world_unsuccessful
        (any_of "paint booth" "spray booth" "coating booth")
        "2024-03-01" "2024-03-08" ARTICLES_PER_QUERY []).1
     = inr [Sample.energy]
  /\ requests_get Sample.world_unsuccessful NEWSAPI_BASE_URL
       (build_params Sample.world_unsuccessful
          (any_of "industrial coating" "powder coating" "surface finishing")
          "2024-03-01" "2024-03-08" ARTICLES_PER_QUERY)
     = Response 304 BodyNotJson
  /\ (_fetch_articles_for_query Sample.world_unsuccessful
        (any_of "industrial coating" "powder coating" "surface finishing")
        "2024-03-01" "2024-03-08" ARTICLES_PER_QUERY []).1
     = inl JSONDecodeError
  /\ (collect_news Iso.fromisoformat Sample.world_unsuccessful []).1
     = inl JSONDecodeError
  /\ length (collect_news Iso.fromisoformat Sample.world_unsuccessful []).2 = 2.
Proof. repeat split; vm_compute; reflexivity. Qed.

(** ** The collector as a whole *)

(** Without a credential the collector raises at once; the log of
    requests is as it was. *)
Lemma collect_news_missing_key parse W log :
  NEWSAPI_KEY W = EmptyString ->
  collect_news parse W log = (inl ValueError, log).
Proof. intros H. unfold collect_news. rewrite H. reflexivity. Qed.

(** A run that returns has sorted the deduplicated candidates and kept
    the first [MAX_ARTICLES] of them. *)
Lemma collect_news_returns parse W log res :
  (collect_news parse W log).1 = inr res ->
  exists all_articles log',
    collect_loop W SEARCH_KEYWORD_GROUPS (date_days_back W SEARCH_DAYS_BACK)
      (date_days_back W 0) [] log = (inr all_articles, log')
    /\ comparable_keys (_parse_date parse)
         (_deduplicate_articles all_articles) = true
    /\ res = take MAX_ARTICLES
               (stable_desc (_parse_date parse)
                  (_deduplicate_articles all_articles)).
Proof.
  unfold collect_news.
  destruct (PyStr.truthy (NEWSAPI_KEY W)); cbn [negb]; [|discriminate].
  unfold bind at 1.
  destruct (collect_loop W SEARCH_KEYWORD_GROUPS _ _ [] log)
    as [[e|all] log'] eqn:E; [discriminate|].
  unfold bind, lift, ret. rewrite sort_reverse_spec.
  destruct (comparable_keys _ _) eqn:Ec; simpl; [|discriminate].
  intros [= <-]. exists all, log'. done.
Qed.

(** X7: when every request of the run has a readable outcome (a
    failure the [try] block handles, or a reply whose body is a JSON
    object with a status other than "ok", or with status "ok" and
    articles that are missing or a list whose accepted items have a
    [source] that is missing or an object), the collector raises in two
    cases only: the configuration error, before any request, and the
    [TypeError] of the sort on keys of both kinds. *)
Theorem collect_news_error (parse : string -> option datetime) (W : World)
    (log log' : list Request) (e : exn) :
  (forall query, query ∈ SEARCH_KEYWORD_GROUPS ->
     outcome_readable
       (requests_get W NEWSAPI_BASE_URL
          (build_params W query (date_days_back W SEARCH_DAYS_BACK)
             (date_days_back W 0) ARTICLES_PER_QUERY))) ->
  collect_news parse W log = (inl e, log') ->
  (e = ValueError /\ NEWSAPI_KEY W = EmptyString /\ log' = log)
  \/ (e = TypeError /\ NEWSAPI_KEY W <> EmptyString
      /\ exists all_articles,
           collect_loop W SEARCH_KEYWORD_GROUPS
             (date_days_back W SEARCH_DAYS_BACK) (date_days_back W 0) [] log
           = (inr all_articles, log')
           /\ comparable_keys (_parse_date parse)
                (_deduplicate_articles all_articles) = false).
Proof.
  intros Hr. unfold collect_news.
  destruct (NEWSAPI_KEY W) as [|c k] eqn:Ek; cbn [PyStr.truthy negb].
  - intros [= <- <-]. by left.
  - destruct (collect_loop_readable W SEARCH_KEYWORD_GROUPS
                (date_days_back W SEARCH_DAYS_BACK) (date_days_back W 0) []
                log Hr)
      as (all & E).
    unfold bind at 1. rewrite E. unfold bind, lift, ret.
    rewrite sort_reverse_spec.
    destruct (comparable_keys _ _) eqn:Ec; [discriminate|].
    intros [= <- <-]. right. split; [reflexivity|]. split; [discriminate|].
    by exists all.
Qed.

(** C5 fails on the code: a publish time without UTC offset parses to a
    naive key, the empty publish time falls back to the aware minimum,
    and sorting the two raises. *)
Theorem sort_mixed_timestamps_raises :
  _parse_date Iso.fromisoformat Sample.dated_naive = Naive 63844884000000000
  /\ _parse_date Iso.fromisoformat Sample.undated = min_utc
  /\ sort_reverse (_parse_date Iso.fromisoformat)
       [Sample.dated_naive; Sample.undated] = inl TypeError.
Proof. repeat split; vm_compute; reflexivity. Qed.

(** C7 fails on the code in its second part: with the credential set the
    collector raises [TypeError], an error other than the configuration
    error, after it has sent its five requests. *)
Theorem collect_news_escalates_type_error :
  (collect_news Iso.fromisoformat Sample.world_mixed []).1 = inl TypeError
  /\ length (collect_news Iso.fromisoformat Sample.world_mixed []).2 = 5.
Proof. split; vm_compute; reflexivity. Qed.

(** C8: a result of the collector has at most [MAX_ARTICLES] articles,
    exactly that many when there are more deduplicated candidates; the
    result and the candidates left out make up the deduplicated list, and
    no article left out is more recent than one that was returned. *)
Theorem finalized_result_capped (parse : string -> option datetime)
    (W : World) (log : list Request) (res : list Article) :
  (collect_news parse W log).1 = inr res ->
  length res <= MAX_ARTICLES
  /\ exists all_articles log' dropped,
       collect_loop W SEARCH_KEYWORD_GROUPS
         (date_days_back W SEARCH_DAYS_BACK) (date_days_back W 0) [] log
       = (inr all_articles, log')
       /\ length res
          = MAX_ARTICLES `min` length (_deduplicate_articles all_articles)
       /\ (MAX_ARTICLES < length (_deduplicate_articles all_articles) ->
           length res = MAX_ARTICLES)
       /\ res ++ dropped ≡ₚ _deduplicate_articles all_articles
       /\ forall x y, x ∈ res -> y ∈ dropped ->
            not_older (_parse_date parse) x y.
Proof.
  intros H. apply collect_news_returns in H as (all & log' & E & _ & ->).
  set (sorted := stable_desc (_parse_date parse) (_deduplicate_articles all)).
  assert (length sorted = length (_deduplicate_articles all)) as Hlen
    by (apply Permutation_length, stable_desc_perm).
  split; [rewrite length_take; lia|].
  exists all, log', (drop MAX_ARTICLES sorted).
  split; [exact E|]. split; [rewrite length_take; lia|].
  split; [rewrite length_take; lia|]. split.
  - rewrite take_drop. apply stable_desc_perm.
  - intros x y Hx Hy.
    eapply (StronglySorted_app_1_elem_of _ (take MAX_ARTICLES sorted)
              (drop MAX_ARTICLES sorted)); [|exact Hx|exact Hy].
    rewrite take_drop. apply stable_desc_sorted.
Qed.

(** In [world_25] the collector returns 20 of the 25 articles. *)
Lemma finalized_result_capped_witness :
  length Sample.news_25 <= MAX_ARTICLES
  /\ exists all_articles log' dropped,
       collect_loop Sample.world_25 SEARCH_KEYWORD_GROUPS
         (date_days_back Sample.world_25 SEARCH_DAYS_BACK)
         (date_days_back Sample.world_25 0) [] []
       = (inr all_articles, log')
       /\ length Sample.news_25
          = MAX_ARTICLES `min` length (_deduplicate_articles all_articles)
       /\ (MAX_ARTICLES < length (_deduplicate_articles all_articles) ->
           length Sample.news_25 = MAX_ARTICLES)
       /\ Sample.news_25 ++ dropped ≡ₚ _deduplicate_articles all_articles
       /\ forall x y, x ∈ Sample.news_25 -> y ∈ dropped ->
            not_older (_parse_date Iso.fromisoformat) x y.
Proof.
  apply (finalized_result_capped Iso.fromisoformat Sample.world_25 []).
  vm_compute. reflexivity.
Defined.

(** Given the 25 distinct articles and the maximum of 20, the result is
    the 20 most recent ones, newest first. *)
Example news_25_most_recent :
  Sample.news_25 = map Sample.numbered (rev (seq 5 20)).
Proof. vm_compute. reflexivity. Qed.

(** ** No duplicates in the result *)

(** C2 as stated fails on the titles: both articles are kept, by the
    deduplicator and by the collector, and the similarity of the first
    title to the second is 0.8, above the threshold; the deduplicator
    compared the second title to the first, which gives 0.6. *)
Lemma similar_titles_both_kept :
  _deduplicate_articles [Sample.abaab; Sample.aabab]
  = [Sample.abaab; Sample.aabab]
  /\ (collect_news Iso.fromisoformat Sample.world_pair []).1
     = inr [Sample.abaab; Sample.aabab]
  /\ (default_threshold
      < Difflib.ratio (Difflib.of_str (PyStr.lower (title Sample.abaab)))
                      (Difflib.of_str (PyStr.lower (title Sample.aabab))))%Q
  /\ Difflib.ratio (Difflib.of_str (PyStr.lower (title Sample.aabab)))
                   (Difflib.of_str (PyStr.lower (title Sample.abaab)))
     = (6 # 10)%Q.
Proof. repeat split; vm_compute; reflexivity. Qed.

(** A subsequence sits in its list at increasing positions. *)
Lemma sublist_positions {A} (l1 l2 : list A) :
  l1 `sublist_of` l2 ->
  exists g : nat -> nat,
    (forall i j, i < j -> g i < g j)
    /\ forall i x, l1 !! i = Some x -> l2 !! g i = Some x.
Proof.
  induction 1 as [|x l1 l2 _ (g & Hg & Hl)|x l1 l2 _ (g & Hg & Hl)].
  - exists id. split; [auto|]. intros i x H. inversion H.
  - exists (fun i => match i with 0 => 0 | S i' => S (g i') end). split.
    + intros [|i] [|j] Hij; try lia. specialize (Hg i j). lia.
    + intros [|i] y; simpl; [done|apply Hl].
  - exists (fun i => S (g i)). split.
    + intros i j Hij. specialize (Hg i j Hij). lia.
    + intros i y H. simpl. by apply Hl.
Qed.

(** C2, as the code has it.  In the output of the deduplicator no two
    articles share a normalized URL, and no article's title reaches the
    threshold when compared to the title of an article before it.  For a
    result of the collector, [arrival] gives each article of the result a
    position of its own in the list of all fetched articles, which is in
    arrival order, and the articles of the result stand in the output of
    the deduplicator in the order of these positions; no two articles of
    the result share a normalized URL, and of any two of them the title of
    the one that arrived later, compared to the title of the one that
    arrived earlier, is below the threshold. *)
Theorem finalized_result_no_later_duplicate :
  (forall l : list Article, first_wins (_deduplicate_articles l))
  /\ (forall (parse : string -> option datetime) (W : World)
             (log : list Request) (res : list Article),
        (collect_news parse W log).1 = inr res ->
        exists (all_articles : list Article) (log' : list Request)
               (arrival : nat -> nat),
          collect_loop W SEARCH_KEYWORD_GROUPS
            (date_days_back W SEARCH_DAYS_BACK) (date_days_back W 0) [] log
          = (inr all_articles, log')
          /\ (forall i x, res !! i = Some x ->
                all_articles !! arrival i = Some x)
          /\ (forall i j x y, res !! i = Some x -> res !! j = Some y ->
                arrival i < arrival j ->
                exists p q, p < q
                  /\ _deduplicate_articles all_articles !! p = Some x
                  /\ _deduplicate_articles all_articles !! q = Some y)
          /\ forall i j x y, i <> j -> res !! i = Some x -> res !! j = Some y ->
               arrival i <> arrival j
               /\ normalized_url x <> normalized_url y
               /\ (arrival i < arrival j ->
                   _is_similar_title (title y) (title x) default_threshold
                   = false)).
Proof.
  split; [apply dedup_first_wins|].
  intros parse W log res H.
  apply collect_news_returns in H as (all & log' & E & _ & ->).
  pose proof (stable_desc_perm (_parse_date parse) (_deduplicate_articles all))
    as Hp.
  apply Permutation_inj in Hp as (_ & f & Hf & Hl).
  destruct (sublist_positions _ _ (dedup_sublist all)) as (g & Hg & Hgl).
  assert (forall i j, g (f i) < g (f j) -> f i < f j) as Hmono.
  { intros i j Hlt. destruct (decide (f i < f j)) as [|Hge]; [done|].
    destruct (decide (f i = f j)) as [Heq|Hne]; [rewrite Heq in Hlt; lia|].
    specialize (Hg (f j) (f i)). lia. }
  assert (forall i x,
            take MAX_ARTICLES
              (stable_desc (_parse_date parse) (_deduplicate_articles all))
            !! i = Some x ->
            _deduplicate_articles all !! f i = Some x) as Hpos.
  { intros i x Hx. apply lookup_take_Some in Hx as [Hx _]. by rewrite <- Hl. }
  exists all, log', (fun i => g (f i)).
  split; [exact E|]. split; [|split].
  - intros i x Hx. apply Hgl, Hpos, Hx.
  - intros i j x y Hx Hy Hlt. exists (f i), (f j).
    split; [by apply Hmono|]. split; by apply Hpos.
  - intros i j x y Hij Hx Hy.
    apply Hpos in Hx, Hy.
    assert (f i <> f j) as Hne by (intros Heq; by apply Hf in Heq).
    split; [|split].
    + intros Heq.
      destruct (decide (f i < f j)) as [Hlt|Hge].
      * specialize (Hg _ _ Hlt). lia.
      * specialize (Hg (f j) (f i)). lia.
    + destruct (decide (f i < f j)) as [Hlt|Hge].
      * by destruct (dedup_first_wins all _ _ _ _ Hlt Hx Hy).
      * assert (f j < f i) as Hlt by lia.
        destruct (dedup_first_wins all _ _ _ _ Hlt Hy Hx) as [Hu _].
        congruence.
    + intros Hlt. apply Hmono in Hlt.
      by destruct (dedup_first_wins all _ _ _ _ Hlt Hx Hy).
Qed.

(** The result for the 25 articles of [world_25]. *)
Lemma finalized_result_no_later_duplicate_witness :
  exists (all_articles : list Article) (log' : list Request)
         (arrival : nat -> nat),
    collect_loop Sample.world_25 SEARCH_KEYWORD_GROUPS
      (date_days_back Sample.world_25 SEARCH_DAYS_BACK)
      (date_days_back Sample.world_25 0) [] []
    = (inr all_articles, log')
    /\ (forall i x, Sample.news_25 !! i = Some x ->
          all_articles !! arrival i = Some x)
    /\ (forall i j x y,
          Sample.news_25 !! i = Some x -> Sample.news_25 !! j = Some y ->
          arrival i < arrival j ->
          exists p q, p < q
            /\ _deduplicate_articles all_articles !! p = Some x
            /\ _deduplicate_articles all_articles !! q = Some y)
    /\ forall i j x y, i <> j ->
         Sample.news_25 !! i = Some x -> Sample.news_25 !! j = Some y ->
         arrival i <> arrival j
         /\ normalized_url x <> normalized_url y
         /\ (arrival i < arrival j ->
             _is_similar_title (title y) (title x) default_threshold = false).
Proof.
  apply (proj2 finalized_result_no_later_duplicate Iso.fromisoformat
           Sample.world_25 [] Sample.news_25).
  vm_compute. reflexivity.
Defined.

(** ** More on the deduplicator *)

Lemma dedup_length l : length (_deduplicate_articles l) <= length l.
Proof. apply sublist_length, dedup_sublist. Qed.

(** X1: the first article of a non-empty input is always kept, as the
    first article of the output, and the output is never longer than the
    input. *)
Theorem dedup_keeps_first (a : Article) (l : list Article) :
  (exists rest, _deduplicate_articles (a :: l) = a :: rest)
  /\ length (_deduplicate_articles (a :: l)) <= S (length l).
Proof.
  split; [|apply (dedup_length (a :: l))].
  destruct (dedup_prefix [a] l) as [k Hk]. simpl in Hk.
  exists k. rewrite Hk. reflexivity.
Qed.

(** X2: an article is dropped at its turn exactly when an article
    accepted before it has its normalized URL or a title its own title is
    similar to. *)
Theorem dedup_drops_iff_conflict (l : list Article) (b : Article) :
  _deduplicate_articles (l ++ [b]) = _deduplicate_articles l
  <-> exists a, a ∈ _deduplicate_articles l /\ conflicts_with b a.
Proof.
  split.
  - intros H. destruct (dedup_snoc_cases l b) as [[_ [Hu|Hd]]|[H' _]].
    + destruct Hu as (a & Ha & Hurl). exists a. split; [exact Ha|]. left. by symmetry.
    + apply is_duplicate_true in Hd as (a & Ha & Hs). exists a. split; [exact Ha|]. by right.
    + rewrite H in H'. apply (f_equal length) in H'.
      rewrite length_app in H'. simpl in H'. lia.
  - intros (a & Ha & Hc).
    destruct (dedup_snoc_cases l b) as [[H _]|(_ & Hu & Hd)]; [exact H|].
    destruct (conflicting_rejected _ a b Ha Hc) as [Hu'|Hd']; [contradiction|congruence].
Qed.

Lemma first_wins_app_inv l a : first_wins (l ++ [a]) -> first_wins l.
Proof.
  intros H i j x y Hij Hx Hy.
  apply (H i j x y Hij); apply lookup_app_l_Some; assumption.
Qed.

(** X3: the lists the deduplicator returns unchanged are exactly those
    in which no article is a duplicate of one before it. *)
Theorem dedup_fixed_point_iff (l : list Article) :
  _deduplicate_articles l = l <-> first_wins l.
Proof.
  split.
  - intros H. rewrite <- H. apply dedup_first_wins.
  - induction l as [|a l IH] using rev_ind; [reflexivity|].
    intros Hf. pose proof (IH (first_wins_app_inv l a Hf)) as El.
    rewrite dedup_snoc_accept; rewrite El; [reflexivity| |].
    + intros (x & Hx & Hurl). apply list_elem_of_lookup in Hx as [i Hi].
      pose proof (lookup_lt_Some _ _ _ Hi) as Hlt.
      destruct (Hf i (length l) x a Hlt) as [Hne _].
      * by apply lookup_app_l_Some.
      * by rewrite list_lookup_middle.
      * contradiction.
    + apply is_duplicate_false. intros x Hx.
      apply list_elem_of_lookup in Hx as [i Hi].
      pose proof (lookup_lt_Some _ _ _ Hi) as Hlt.
      destruct (Hf i (length l) x a Hlt) as [_ Hs].
      * by apply lookup_app_l_Some.
      * by rewrite list_lookup_middle.
      * exact Hs.
Qed.

Lemma lower_app s t : PyStr.lower (s +:+ t) = PyStr.lower s +:+ PyStr.lower t.
Proof. induction s as [|c s IH]; simpl; [reflexivity|]. by rewrite IH. Qed.

Lemma lower_char_slash c :
  Ascii.eqb (PyStr.lower_char c) "/"%char = Ascii.eqb c "/"%char.
Proof.
  destruct c as [[] [] [] [] [] [] [] []]; vm_compute; reflexivity.
Qed.

Lemma rstrip_slash_lower s :
  PyStr.lower (PyStr.rstrip_slash s) = PyStr.rstrip_slash (PyStr.lower s).
Proof.
  unfold PyStr.rstrip_slash. induction s as [|c s IH]; simpl; [reflexivity|].
  rewrite <- IH.
  destruct (PyStr.rstrip_chars _ s) as [|c' r]; simpl.
  - rewrite lower_char_slash. destruct (Ascii.eqb c "/"); reflexivity.
  - reflexivity.
Qed.

Lemma rstrip_chars_app p s t :
  forallb p (list_ascii_of_string t) = true ->
  PyStr.rstrip_chars p (s +:+ t) = PyStr.rstrip_chars p s.
Proof.
  intros Ht. induction s as [|c s IH]; simpl.
  - by apply rstrip_chars_empty_iff.
  - by rewrite IH.
Qed.

Lemma slashes_all n :
  forallb (fun c => Ascii.eqb c "/"%char) (list_ascii_of_string (slashes n)) = true.
Proof. induction n; simpl; [reflexivity|exact IHn]. Qed.

Lemma normalized_url_slashes a core n :
  PyStr.lower (url a) = core +:+ slashes n ->
  normalized_url a = PyStr.rstrip_slash core.
Proof.
  intros H. unfold normalized_url. rewrite rstrip_slash_lower, H.
  unfold PyStr.rstrip_slash. apply rstrip_chars_app, slashes_all.
Qed.

(** X4: letter case and trailing slashes do not count in a URL: an
    article whose URL differs from that of an accepted article in these
    only (the two URLs, in lower case, are the same text followed by
    slashes, any number on either side) has the same normalized URL and is
    dropped. *)
Theorem dedup_url_variant_dropped (l : list Article) (a b : Article)
    (core : string) (m n : nat) :
  a ∈ _deduplicate_articles l ->
  PyStr.lower (url a) = core +:+ slashes m ->
  PyStr.lower (url b) = core +:+ slashes n ->
  normalized_url b = normalized_url a
  /\ _deduplicate_articles (l ++ [b]) = _deduplicate_articles l.
Proof.
  intros Ha Hua Hub.
  assert (normalized_url b = normalized_url a) as E.
  { rewrite (normalized_url_slashes a core m Hua).
    apply (normalized_url_slashes b core n Hub). }
  split; [exact E|].
  destruct (dedup_snoc_cases l b) as [[H _]|(_ & Hs & _)]; [exact H|].
  exfalso. apply Hs. by exists a.
Qed.

(** The accepted URL ends in a slash, the new one is in capitals and
    has none. *)
Lemma dedup_url_variant_dropped_witness :
  normalized_url url_capitals = normalized_url Sample.voc
  /\ _deduplicate_articles ([Sample.voc] ++ [url_capitals])
     = _deduplicate_articles [Sample.voc].
Proof.
  apply (dedup_url_variant_dropped [Sample.voc] Sample.voc url_capitals
           "http://b.com/y" 1 0).
  - vm_compute. by left.
  - vm_compute. reflexivity.
  - vm_compute. reflexivity.
Defined.

(** ** More on the collector *)

(** X6: without a credential no request is issued; with one, the
    requests of a run go out one per keyword group, in the order of the
    groups, until a fetch raises: the log grows by the first [k] requests
    of the run, with [k] at least 1, and by all five when the run returns
    or when every request has a readable outcome; each request carries the
    fixed parameters. *)
Theorem collect_news_requests (parse : string -> option datetime) (W : World)
    (log : list Request) :
  (NEWSAPI_KEY W = EmptyString -> (collect_news parse W log).2 = log)
  /\ (NEWSAPI_KEY W <> EmptyString ->
      (exists k, 0 < k <= length SEARCH_KEYWORD_GROUPS
         /\ (collect_news parse W log).2 = log ++ take k (run_requests W))
      /\ (forall res, (collect_news parse W log).1 = inr res ->
            (collect_news parse W log).2 = log ++ run_requests W)
      /\ ((forall query, query ∈ SEARCH_KEYWORD_GROUPS ->
             outcome_readable
               (requests_get W NEWSAPI_BASE_URL
                  (build_params W query (date_days_back W SEARCH_DAYS_BACK)
                     (date_days_back W 0) ARTICLES_PER_QUERY))) ->
          (collect_news parse W log).2 = log ++ run_requests W)
      /\ map param_q (run_requests W) = SEARCH_KEYWORD_GROUPS
      /\ Forall (fixed_params W) (run_requests W)).
Proof.
  split.
  - intros H. by rewrite (collect_news_missing_key parse W log H).
  - intros Hk.
    assert (forall r log1,
              collect_loop W SEARCH_KEYWORD_GROUPS
                (date_days_back W SEARCH_DAYS_BACK) (date_days_back W 0)
                [] log = (r, log1) ->
              (collect_news parse W log).2 = log1
              /\ forall res, (collect_news parse W log).1 = inr res ->
                   exists all_articles, r = inr all_articles) as Hrun.
    { intros r log1 E. unfold collect_news.
      destruct (NEWSAPI_KEY W) as [|c k] eqn:Ek; [contradiction|].
      cbn [PyStr.truthy negb]. unfold bind at 1 3. rewrite E.
      destruct r as [e|all]; [split; [reflexivity|discriminate]|].
      unfold bind, lift, ret.
      destruct (sort_reverse _ _); (split; [reflexivity|]); by exists all. }
    destruct (collect_loop_log W SEARCH_KEYWORD_GROUPS
                (date_days_back W SEARCH_DAYS_BACK) (date_days_back W 0)
                [] log) as (k & Hle & Hpos & Hlog & Hall).
    destruct (collect_loop W SEARCH_KEYWORD_GROUPS
                (date_days_back W SEARCH_DAYS_BACK) (date_days_back W 0)
                [] log) as [r log1] eqn:E.
    destruct (Hrun r log1 eq_refl) as [H2 Hres]. cbn [fst snd] in Hlog, Hall.
    split; [|split; [|split; [|split]]].
    + exists k. split; [split; [apply Hpos; discriminate|exact Hle]|].
      rewrite H2, Hlog. unfold run_requests. by rewrite firstn_map.
    + intros res H. destruct (Hres res H) as [all ->].
      rewrite H2, Hlog, (Hall all eq_refl), firstn_all. reflexivity.
    + intros Hr.
      destruct (collect_loop_readable W SEARCH_KEYWORD_GROUPS
                  (date_days_back W SEARCH_DAYS_BACK) (date_days_back W 0) []
                  log Hr) as (all & E').
      rewrite E in E'. injection E' as _ ->. exact H2.
    + reflexivity.
    + repeat constructor.
Qed.

(** In [world_unsuccessful] the second fetch raises: two requests. *)
Lemma collect_news_requests_witness :
  (exists k, 0 < k <= length SEARCH_KEYWORD_GROUPS
     /\ (collect_news Iso.fromisoformat Sample.world_unsuccessful []).2
        = [] ++ take k (run_requests Sample.world_unsuccessful))
  /\ (forall res,
        (collect_news Iso.fromisoformat Sample.world_unsuccessful []).1
        = inr res ->
        (collect_news Iso.fromisoformat Sample.world_unsuccessful []).2
        = [] ++ run_requests Sample.world_unsuccessful)
  /\ ((forall query, query ∈ SEARCH_KEYWORD_GROUPS ->
         outcome_readable
           (requests_get Sample.world_unsuccessful NEWSAPI_BASE_URL
              (build_params Sample.world_unsuccessful query
                 (date_days_back Sample.world_unsuccessful SEARCH_DAYS_BACK)
                 (date_days_back Sample.world_unsuccessful 0)
                 ARTICLES_PER_QUERY))) ->
      (collect_news Iso.fromisoformat Sample.world_unsuccessful []).2
      = [] ++ run_requests Sample.world_unsuccessful)
  /\ map param_q (run_requests Sample.world_unsuccessful)
     = SEARCH_KEYWORD_GROUPS
  /\ Forall (fixed_params Sample.world_unsuccessful)
            (run_requests Sample.world_unsuccessful).
Proof.
  apply (proj2 (collect_news_requests Iso.fromisoformat
                  Sample.world_unsuccessful [])).
  vm_compute. discriminate.
Defined.

(** Every request of [world_mixed] has a readable outcome. *)
Lemma collect_news_error_witness :
  (TypeError = ValueError /\ NEWSAPI_KEY Sample.world_mixed = EmptyString
   /\ run_requests Sample.world_mixed = [])
  \/ (TypeError = TypeError /\ NEWSAPI_KEY Sample.world_mixed <> EmptyString
      /\ exists all_articles,
           collect_loop Sample.world_mixed SEARCH_KEYWORD_GROUPS
             (date_days_back Sample.world_mixed SEARCH_DAYS_BACK)
             (date_days_back Sample.world_mixed 0) [] []
           = (inr all_articles, run_requests Sample.world_mixed)
           /\ comparable_keys (_parse_date Iso.fromisoformat)
                (_deduplicate_articles all_articles) = false).
Proof.
  apply (collect_news_error Iso.fromisoformat Sample.world_mixed []).
  - intros query _. unfold outcome_readable, Sample.world_mixed.
    cbn [requests_get]. destruct (String.eqb _ _); [|exact I].
    right. eexists. split; [reflexivity|]. right.
    repeat constructor; intros _; discriminate.
  - vm_compute. reflexivity.
Defined.

(** X8: when the credential is set and every query fails, the collector
    returns the empty list, after one request per keyword group. *)
Theorem collect_news_outage_is_empty (parse : string -> option datetime)
    (W : World) (log : list Request) :
  NEWSAPI_KEY W <> EmptyString ->
  (forall query,
     query_fails
       (requests_get W NEWSAPI_BASE_URL
          (build_params W query (date_days_back W SEARCH_DAYS_BACK)
             (date_days_back W 0) ARTICLES_PER_QUERY))) ->
  collect_news parse W log = (inr [], log ++ run_requests W).
Proof.
  intros Hk Hf. unfold collect_news.
  destruct (NEWSAPI_KEY W) as [|c k] eqn:Ek; [contradiction|].
  cbn [PyStr.truthy negb]. unfold bind at 1.
  rewrite (collect_loop_all_fail W SEARCH_KEYWORD_GROUPS
             (date_days_back W SEARCH_DAYS_BACK) (date_days_back W 0) [] log)
    by (intros query _; apply Hf).
  reflexivity.
Qed.

Lemma collect_news_outage_is_empty_witness :
  collect_news Iso.fromisoformat world_down [] = (inr [], [] ++ run_requests world_down).
Proof.
  apply (collect_news_outage_is_empty Iso.fromisoformat world_down []).
  - vm_compute. discriminate.
  - intros query. exact I.
Defined.

Lemma filter_take_prefix {A} (P : A -> Prop) `{!forall x, Decision (P x)}
    (n : nat) (l : list A) :
  filter P (take n l) `prefix_of` filter P l.
Proof.
  exists (filter P (drop n l)). by rewrite <- filter_app, take_drop.
Qed.

(** X9: a result of the collector is in descending order of the
    publish-time keys, and its articles with equal keys stand in the
    order the deduplicator left them in. *)
Theorem finalized_result_sorted_stable (parse : string -> option datetime)
    (W : World) (log : list Request) (res : list Article) :
  (collect_news parse W log).1 = inr res ->
  StronglySorted (not_older (_parse_date parse)) res
  /\ exists all_articles log',
       collect_loop W SEARCH_KEYWORD_GROUPS
         (date_days_back W SEARCH_DAYS_BACK) (date_days_back W 0) [] log
       = (inr all_articles, log')
       /\ res `sublist_of` stable_desc (_parse_date parse)
                             (_deduplicate_articles all_articles)
       /\ forall k : Z,
            filter (fun y => instant (_parse_date parse y) = k) res
            `prefix_of`
            filter (fun y => instant (_parse_date parse y) = k)
                   (_deduplicate_articles all_articles).
Proof.
  intros H. apply collect_news_returns in H as (all & log' & E & _ & ->).
  split.
  - eapply StronglySorted_app_1_l. rewrite take_drop. apply stable_desc_sorted.
  - exists all, log'. split; [exact E|]. split.
    + apply sublist_take.
    + intros k.
      rewrite <- (stable_desc_stable (_parse_date parse) k
                    (_deduplicate_articles all)).
      apply filter_take_prefix.
Qed.

Lemma finalized_result_sorted_stable_witness :
  StronglySorted (not_older (_parse_date Iso.fromisoformat)) Sample.news_25
  /\ exists all_articles log',
       collect_loop Sample.world_25 SEARCH_KEYWORD_GROUPS
         (date_days_back Sample.world_25 SEARCH_DAYS_BACK)
         (date_days_back Sample.world_25 0) [] []
       = (inr all_articles, log')
       /\ Sample.news_25 `sublist_of` stable_desc (_parse_date Iso.fromisoformat)
                             (_deduplicate_articles all_articles)
       /\ forall k : Z,
            filter (fun y => instant (_parse_date Iso.fromisoformat y) = k)
                   Sample.news_25
            `prefix_of`
            filter (fun y => instant (_parse_date Iso.fromisoformat y) = k)
                   (_deduplicate_articles all_articles).
Proof.
  apply (finalized_result_sorted_stable Iso.fromisoformat Sample.world_25 []).
  vm_compute. reflexivity.
Defined.

(** X10: when the credential is set and the key of every deduplicated
    article is aware, the collector returns the first [MAX_ARTICLES]
    articles of the stable descending order. *)
Theorem collect_news_returns_on_aware_keys (parse : string -> option datetime)
    (W : World) (log log' : list Request) (all_articles : list Article) :
  NEWSAPI_KEY W <> EmptyString ->
  collect_loop W SEARCH_KEYWORD_GROUPS (date_days_back W SEARCH_DAYS_BACK)
    (date_days_back W 0) [] log = (inr all_articles, log') ->
  (forall a, a ∈ _deduplicate_articles all_articles ->
     is_aware (_parse_date parse a) = true) ->
  collect_news parse W log
  = (inr (take MAX_ARTICLES
            (stable_desc (_parse_date parse)
               (_deduplicate_articles all_articles))), log').
Proof.
  intros Hk E Ha. unfold collect_news.
  destruct (NEWSAPI_KEY W) as [|c k] eqn:Ek; [contradiction|].
  cbn [PyStr.truthy negb]. unfold bind at 1. rewrite E.
  unfold bind, lift, ret. rewrite sort_reverse_spec.
  replace (comparable_keys _ _) with true; [reflexivity|].
  symmetry. apply comparable_keys_kind. exists true.
  apply Forall_forall. exact Ha.
Qed.

Lemma collect_news_returns_on_aware_keys_witness :
  collect_news Iso.fromisoformat Sample.world_25 []
  = (inr (take MAX_ARTICLES
            (stable_desc (_parse_date Iso.fromisoformat)
               (_deduplicate_articles (map Sample.numbered (seq 0 25))))),
     run_requests Sample.world_25).
Proof.
  apply (collect_news_returns_on_aware_keys Iso.fromisoformat Sample.world_25
           [] (run_requests Sample.world_25) (map Sample.numbered (seq 0 25))).
  - vm_compute. discriminate.
  - vm_compute. reflexivity.
  - intros a Ha. apply list_elem_of_In in Ha. revert a Ha.
    apply forallb_forall. vm_compute. reflexivity.
Defined.

(** ** Translation and summary *)
Section TranslateFacts.
Import Translate.

Lemma split_nl_nonempty s : split_nl s <> [].
Proof.
  induction s as [|c s IH]; simpl; [discriminate|].
  destruct (Ascii.eqb c _); [discriminate|].
  destruct (split_nl s); [contradiction|discriminate].
Qed.

Lemma split_nl_one_line s : one_line s -> split_nl s = [s].
Proof.
  unfold one_line. induction s as [|c s IH]; simpl; [reflexivity|].
  intros H. apply Forall_cons in H as [Hc Hs].
  apply Ascii.eqb_neq in Hc. rewrite Hc, (IH Hs). reflexivity.
Qed.

Lemma split_nl_feed s t :
  one_line s ->
  split_nl (s +:+ String (ascii_of_nat 10) t) = s :: split_nl t.
Proof.
  unfold one_line. induction s as [|c s IH]; intros H.
  - reflexivity.
  - apply Forall_cons in H as [Hc Hs]. apply Ascii.eqb_neq in Hc.
    change (split_nl (String c (s +:+ String (ascii_of_nat 10) t))
            = String c s :: split_nl t).
    cbn [split_nl]. rewrite Hc, (IH Hs). reflexivity.
Qed.

Lemma split_nl_line s t :
  one_line s -> split_nl (s +:+ nl +:+ t) = s :: split_nl t.
Proof. apply split_nl_feed. Qed.

Lemma join_nl_cons line lines :
  lines <> [] -> join_nl (line :: lines) = line +:+ nl +:+ join_nl lines.
Proof. destruct lines; [contradiction|reflexivity]. Qed.

(** Splitting what was joined gives the lines back. *)
Lemma split_nl_join lines :
  lines <> [] -> Forall one_line lines -> split_nl (join_nl lines) = lines.
Proof.
  induction lines as [|line lines IH]; [contradiction|].
  intros _ H. apply Forall_cons in H as [Hl Hls].
  destruct lines as [|line' lines].
  - by apply split_nl_one_line.
  - rewrite join_nl_cons by discriminate.
    rewrite split_nl_line by exact Hl.
    rewrite IH; [reflexivity|discriminate|exact Hls].
Qed.

Lemma fence_loop_body body rest acc :
  Forall (fun line => starts_fence line = false) body ->
  fence_loop (body ++ rest) true acc = fence_loop rest true (acc ++ body).
Proof.
  revert acc. induction body as [|line body IH]; intros acc H; simpl.
  - by rewrite app_nil_r.
  - apply Forall_cons in H as [Hl Hb]. rewrite Hl. simpl.
    rewrite IH by exact Hb. by rewrite <- app_assoc.
Qed.

Lemma prefix_app p s t :
  String.prefix p s = true -> String.prefix p (s +:+ t) = true.
Proof.
  revert s. induction p as [|a p IH]; intros s H.
  - by destruct (s +:+ t).
  - destruct s as [|c s]; simpl in *; [discriminate|].
    destruct (ascii_dec a c); [by apply IH|discriminate].
Qed.

Lemma starts_fence_app s t : starts_fence s = true -> starts_fence (s +:+ t) = true.
Proof. apply prefix_app. Qed.

Lemma starts_fence_join line lines :
  starts_fence line = true -> starts_fence (join_nl (line :: lines)) = true.
Proof.
  intros H. destruct lines; [exact H|].
  rewrite join_nl_cons by discriminate. by apply starts_fence_app.
Qed.

(** X13: a reply wrapped in a code fence is read as the lines between
    the opening fence and the next fence, or as all lines after the
    opening fence when no fence closes it. *)
Theorem json_text_unfences (block_text opening : string)
    (body tail : list string) :
  PyStr.strip block_text = join_nl (opening :: body ++ tail) ->
  starts_fence opening = true ->
  Forall (fun line => starts_fence line = false) body ->
  Forall one_line (opening :: body ++ tail) ->
  match tail with
  | [] => True
  | closing :: _ => starts_fence closing = true
  end ->
  json_text block_text = join_nl body.
Proof.
  intros Hs Ho Hb Hl Ht. unfold json_text. rewrite Hs.
  rewrite starts_fence_join by exact Ho.
  rewrite split_nl_join by (done || discriminate).
  simpl. rewrite Ho. simpl.
  rewrite fence_loop_body by exact Hb. simpl.
  destruct tail as [|closing tail]; [reflexivity|].
  simpl. rewrite Ht. reflexivity.
Qed.

Lemma json_text_unfences_witness :
  json_text (" ```json" +:+ nl +:+ "{sample}" +:+ nl +:+ "```" +:+ nl)
  = join_nl ["{sample}"].
Proof.
  apply (json_text_unfences _ "```json" ["{sample}"] ["```"]).
  - vm_compute. reflexivity.
  - reflexivity.
  - repeat constructor.
  - repeat constructor; vm_compute; discriminate.
  - reflexivity.
Defined.

Lemma setdefault_lookup key value d k :
  setdefault key value d !! k
  = if decide (key = k)
    then Some (default value (d !! key)) else d !! k.
Proof.
  unfold setdefault. destruct (d !! key) as [v|] eqn:E.
  - case_decide; [subst; by rewrite E|reflexivity].
  - rewrite lookup_insert. case_decide; reflexivity.
Qed.

Lemma in_CATEGORIES_other : in_CATEGORIES "other" = true.
Proof. vm_compute. reflexivity. Qed.

Lemma normalize_well_formed article result :
  exists result', normalize article result = Some result' /\ well_formed result'.
Proof.
  unfold normalize. case_bool_decide as Hk.
  - destruct Hk as (Ht & Hs & [c Hc]). rewrite Hc.
    destruct (in_CATEGORIES c) eqn:Ec; simpl; eexists; (split; [reflexivity|]).
    + split; [exact Ht|]. split; [exact Hs|]. by exists c.
    + unfold well_formed. rewrite !lookup_insert_ne by discriminate.
      split; [exact Ht|]. split; [exact Hs|]. exists "other".
      rewrite lookup_insert_eq. split; [reflexivity|apply in_CATEGORIES_other].
  - set (r := setdefault _ _ (setdefault _ _ (setdefault _ _ result))).
    assert (is_Some (r !! "title_ja")) as Ht.
    { unfold r. rewrite !setdefault_lookup. simpl. eauto. }
    assert (is_Some (r !! "summary_ja")) as Hs.
    { unfold r. rewrite !setdefault_lookup. simpl. eauto. }
    assert (is_Some (r !! "category")) as [c Hc].
    { unfold r. rewrite !setdefault_lookup. simpl. eauto. }
    rewrite Hc.
    destruct (in_CATEGORIES c) eqn:Ec; simpl; eexists; (split; [reflexivity|]).
    + split; [exact Ht|]. split; [exact Hs|]. by exists c.
    + unfold well_formed. rewrite !lookup_insert_ne by discriminate.
      split; [exact Ht|]. split; [exact Hs|]. exists "other".
      rewrite lookup_insert_eq. split; [reflexivity|apply in_CATEGORIES_other].
Qed.

Lemma fallback_well_formed article : well_formed (fallback article).
Proof.
  unfold well_formed, fallback.
  rewrite lookup_insert_eq.
  rewrite (lookup_insert_ne _ "title_ja" "summary_ja") by discriminate.
  rewrite lookup_insert_eq.
  rewrite !(lookup_insert_ne _ _ "category") by discriminate.
  rewrite lookup_insert_eq.
  split; [eauto|]. split; [eauto|]. exists "other". split; [reflexivity|].
  apply in_CATEGORIES_other.
Qed.


Section RetryFacts.
Variable json_loads : string -> decoded.
Variable W : TWorld.

Ltac step_retry :=
  cbn [retry_loop]; unfold tbind, create, sleep, tret, traise; cbn [fst snd].

Lemma retry_loop_well_formed article max_retries base_delay attempts st res st' :
  retry_loop json_loads W article max_retries base_delay attempts st
  = (inr res, st') ->
  well_formed res.
Proof.
  revert st. induction attempts as [|attempt rest IH]; intros st.
  - intros [= <- _]. apply fallback_well_formed.
  - step_retry.
    destruct (messages_create W _ _) as [| |[|block content]].
    + apply IH.
    + destruct (_ <? _)%Z; [apply IH|discriminate].
    + destruct (_ <? _)%Z; apply IH.
    + destruct (json_loads _) as [| |result].
      * destruct (_ <? _)%Z; apply IH.
      * discriminate.
      * destruct (normalize_well_formed article result) as (r & -> & Hr).
        by intros [= <- _].
Qed.

(** X14: a dictionary returned by [_call_claude_with_retry] has the keys
    [title_ja], [summary_ja] and [category], and its category is a key of
    [CATEGORIES]. *)
Theorem call_result_well_formed (article : Article) (max_retries : nat)
    (base_delay : Q) (st st' : tstate) (res : gmap string string) :
  _call_claude_with_retry json_loads W article max_retries base_delay st
  = (inr res, st') ->
  well_formed res.
Proof. apply retry_loop_well_formed. Qed.

Lemma retry_loop_calls article max_retries base_delay attempts st :
  exists k,
    k <= length attempts /\ (attempts <> [] -> 1 <= k)
    /\ api_calls (retry_loop json_loads W article max_retries base_delay
                    attempts st).2
       = api_calls st ++ replicate k (_build_user_prompt article).
Proof.
  revert st. induction attempts as [|attempt rest IH]; intros st.
  - exists 0. simpl. rewrite app_nil_r. split; [lia|]. split; [done|reflexivity].
  - assert (forall st1 : tstate,
              api_calls st1 = api_calls st ++ [_build_user_prompt article] ->
              exists k,
                k <= length (attempt :: rest) /\ (attempt :: rest <> [] -> 1 <= k)
                /\ api_calls (retry_loop json_loads W article max_retries
                                base_delay rest st1).2
                   = api_calls st ++ replicate k (_build_user_prompt article))
      as Hrec.
    { intros st1 H1. destruct (IH st1) as (k & Hk & _ & Hc).
      exists (S k). simpl. split; [lia|]. split; [lia|].
      rewrite Hc, H1, <- app_assoc. reflexivity. }
    assert (exists k,
              k <= length (attempt :: rest) /\ (attempt :: rest <> [] -> 1 <= k)
              /\ api_calls st ++ [_build_user_prompt article]
                 = api_calls st ++ replicate k (_build_user_prompt article))
      as Hstop.
    { exists 1. simpl. split; [lia|]. split; [lia|reflexivity]. }
    step_retry.
    destruct (messages_create W _ _) as [| |[|block content]].
    + apply Hrec. reflexivity.
    + destruct (_ <? _)%Z; [apply Hrec; reflexivity|exact Hstop].
    + destruct (_ <? _)%Z; apply Hrec; reflexivity.
    + destruct (json_loads _) as [| |result].
      * destruct (_ <? _)%Z; apply Hrec; reflexivity.
      * exact Hstop.
      * destruct (normalize article result); [exact Hstop|].
        destruct (_ <? _)%Z; apply Hrec; reflexivity.
Qed.

Lemma call_attempts_bounded_aux article max_retries base_delay st :
  exists k,
    k <= max_retries
    /\ api_calls (_call_claude_with_retry json_loads W article max_retries
                    base_delay st).2
       = api_calls st ++ replicate k (_build_user_prompt article).
Proof.
  destruct (retry_loop_calls article max_retries base_delay
              (seq 0 max_retries) st) as (k & Hk & _ & Hc).
  rewrite length_seq in Hk. by exists k.
Qed.

(** X15: one invocation calls the API at most [max_retries] times, at
    least once when [max_retries] is positive, each time with the prompt
    of the article. *)
Theorem call_attempts_bounded (article : Article) (max_retries : nat)
    (base_delay : Q) (st : tstate) :
  exists k,
    k <= max_retries /\ (0 < max_retries -> 1 <= k)
    /\ api_calls (_call_claude_with_retry json_loads W article max_retries
                    base_delay st).2
       = api_calls st ++ replicate k (_build_user_prompt article).
Proof.
  destruct (retry_loop_calls article max_retries base_delay
              (seq 0 max_retries) st) as (k & Hk & Hpos & Hc).
  rewrite length_seq in Hk. exists k. split; [exact Hk|]. split; [|exact Hc].
  intros Hm. apply Hpos. destruct max_retries; [lia|discriminate].
Qed.

Lemma retry_loop_raises article max_retries base_delay s n st st' :
  s + n = max_retries ->
  retry_loop json_loads W article max_retries base_delay (seq s n) st
  = (inl AnthropicAPIError, st') ->
  length (api_calls st') = length (api_calls st) + n
  /\ messages_create W (length (api_calls st') - 1)
       (_build_user_prompt article) = APIError.
Proof.
  revert s st. induction n as [|n IH]; intros s st Hsn; [discriminate|].
  assert (forall st1 : tstate,
            length (api_calls st1) = S (length (api_calls st)) ->
            retry_loop json_loads W article max_retries base_delay
              (seq (S s) n) st1 = (inl AnthropicAPIError, st') ->
            length (api_calls st') = length (api_calls st) + S n
            /\ messages_create W (length (api_calls st') - 1)
                 (_build_user_prompt article) = APIError) as Hrec.
  { intros st1 H1 H. destruct (IH (S s) st1 ltac:(lia) H) as [Hl Hc].
    split; [lia|exact Hc]. }
  simpl seq. step_retry.
  destruct (messages_create W (length (api_calls st)) _)
    as [| |[|block content]] eqn:Ec.
  - apply Hrec. simpl. rewrite length_app. simpl. lia.
  - destruct (_ <? _)%Z eqn:E.
    + apply Hrec. simpl. rewrite length_app. simpl. lia.
    + intros [= <-]. apply Z.ltb_ge in E. simpl. rewrite length_app. simpl.
      split; [lia|].
      replace (length (api_calls st) + 1 - 1) with (length (api_calls st))
        by lia.
      exact Ec.
  - destruct (_ <? _)%Z; apply Hrec; simpl; rewrite length_app; simpl; lia.
  - destruct (json_loads _) as [| |result].
    + destruct (_ <? _)%Z; apply Hrec; simpl; rewrite length_app; simpl; lia.
    + discriminate.
    + destruct (normalize article result); [discriminate|].
      destruct (_ <? _)%Z; apply Hrec; simpl; rewrite length_app; simpl; lia.
Qed.

(** X16: [_call_claude_with_retry] raises the API error only from its
    last attempt: when it does, it has made [max_retries] calls, and the
    last of them failed with an API error other than the rate limit. *)
Theorem call_raises_after_last_attempt (article : Article) (max_retries : nat)
    (base_delay : Q) (st st' : tstate) :
  _call_claude_with_retry json_loads W article max_retries base_delay st
  = (inl AnthropicAPIError, st') ->
  length (api_calls st') = length (api_calls st) + max_retries
  /\ messages_create W (length (api_calls st) + max_retries - 1)
       (_build_user_prompt article) = APIError.
Proof.
  intros H. apply retry_loop_raises in H as [Hl Hc]; [|reflexivity].
  split; [exact Hl|]. by rewrite <- Hl.
Qed.



Lemma call_calls_le article max_retries base_delay st :
  length (api_calls (_call_claude_with_retry json_loads W article max_retries
                       base_delay st).2)
  <= length (api_calls st) + max_retries.
Proof.
  destruct (call_attempts_bounded_aux article max_retries base_delay st)
    as (k & Hk & Hc).
  rewrite Hc, length_app, length_replicate. lia.
Qed.

Ltac step_translate :=
  cbn [translate_loop]; unfold tbind at 1.

Lemma translate_loop_spec articles i total delay done st res st' :
  translate_loop json_loads W articles i total delay done st = (inr res, st') ->
  exists new, res = done ++ new /\ Forall2 translated_from articles new.
Proof.
  revert i done st. induction articles as [|a rest IH]; intros i done st.
  - intros [= <- _]. exists []. rewrite app_nil_r. split; [reflexivity|constructor].
  - step_translate.
    destruct (_call_claude_with_retry json_loads W a 3 2 st)
      as [[e|result] st1] eqn:Ec; [discriminate|].
    destruct (retry_loop_well_formed a 3 2 _ st result st1 Ec)
      as ([t Ht] & [sm Hs] & c & Hc & Hin).
    unfold tbind, item. rewrite Ht, Hs, Hc. unfold tret at 1 2 3.
    set (a' := {| title := title a; description := description a;
                  url := url a; source := source a;
                  published_at := published_at a; image_url := image_url a;
                  title_ja := t; summary_ja := sm; category := c |}).
    destruct ((if (i <? total) && negb (Qle_bool delay 0)
               then sleep delay else tret ()) st1) as [[e|u] st2] eqn:Es.
    { destruct (_ && _); discriminate Es. }
    intros H. apply IH in H as (new & -> & Hf).
    exists (a' :: new). rewrite <- app_assoc. split; [reflexivity|].
    constructor; [|exact Hf]. repeat split; try reflexivity. exact Hin.
Qed.

Lemma translate_spec articles delay st res st' :
  translate_and_summarize json_loads W articles delay st = (inr res, st') ->
  Forall2 translated_from articles res.
Proof.
  unfold translate_and_summarize.
  destruct (PyStr.truthy _); simpl; [|discriminate].
  intros H. by apply translate_loop_spec in H as (new & -> & Hf).
Qed.

(** X18: a translation that returns gives one article per input
    article, in the same order, with title, description, url, source,
    publish time and image unchanged and a category that is a key of
    [CATEGORIES]. *)
Theorem translate_preserves_articles (articles : list Article) (delay : Q)
    (st st' : tstate) (res : list Article) :
  translate_and_summarize json_loads W articles delay st = (inr res, st') ->
  length res = length articles
  /\ Forall2 translated_from articles res.
Proof.
  intros H. apply translate_spec in H.
  split; [symmetry; by eapply Forall2_length|exact H].
Qed.

Lemma translate_loop_calls articles i total delay done st :
  length (api_calls (translate_loop json_loads W articles i total delay done
                       st).2)
  <= length (api_calls st) + 3 * length articles.
Proof.
  revert i done st. induction articles as [|a rest IH]; intros i done st.
  - simpl. lia.
  - step_translate.
    pose proof (call_calls_le a 3 2 st) as Hc.
    destruct (_call_claude_with_retry json_loads W a 3 2 st)
      as [[e|result] st1]; simpl in Hc; [simpl; lia|].
    unfold tbind, item.
    destruct (result !! "title_ja"); [|simpl; lia].
    destruct (result !! "summary_ja"); [|simpl; lia].
    destruct (result !! "category"); [|simpl; lia].
    unfold tret at 1 2 3.
    assert (forall st2, api_calls st2 = api_calls st1 ->
              length (api_calls
                        (translate_loop json_loads W rest (S i) total delay
                           (done ++ [ {| title := title a;
                                         description := description a;
                                         url := url a; source := source a;
                                         published_at := published_at a;
                                         image_url := image_url a;
                                         title_ja := s; summary_ja := s0;
                                         category := s1 |} ]) st2).2)
              <= length (api_calls st) + 3 * length (a :: rest)) as Hrec.
    { intros st2 H2. etransitivity; [apply IH|]. rewrite H2. simpl. lia. }
    destruct (_ && _); simpl; apply Hrec; reflexivity.
Qed.

(** X19: without a credential the translation raises [ValueError] and
    calls nothing; with one it calls the API at most three times per
    article. *)
Theorem translate_calls_bounded (articles : list Article) (delay : Q)
    (st : tstate) :
  (ANTHROPIC_API_KEY W = EmptyString ->
   translate_and_summarize json_loads W articles delay st
   = (inl (Builtin ValueError), st))
  /\ length (api_calls
               (translate_and_summarize json_loads W articles delay st).2)
     <= length (api_calls st) + 3 * length articles.
Proof.
  unfold translate_and_summarize. split.
  - intros ->. reflexivity.
  - destruct (PyStr.truthy _); simpl; [apply translate_loop_calls|lia].
Qed.

End RetryFacts.

(** Translation leaves what the collector established untouched. *)
Lemma translated_first_wins articles res :
  Forall2 translated_from articles res -> first_wins articles -> first_wins res.
Proof.
  intros Hf Hw i j x y Hij Hx Hy.
  destruct (Forall2_lookup_r _ _ _ _ _ Hf Hx) as (x0 & Hx0 & Hxx).
  destruct (Forall2_lookup_r _ _ _ _ _ Hf Hy) as (y0 & Hy0 & Hyy).
  destruct (Hw i j x0 y0 Hij Hx0 Hy0) as [Hu Hs].
  destruct Hxx as (Ht1 & _ & Hu1 & _), Hyy as (Ht2 & _ & Hu2 & _).
  unfold normalized_url in *. rewrite Ht1, Ht2, Hu1, Hu2. by split.
Qed.

Lemma translated_sorted parse articles res :
  Forall2 translated_from articles res ->
  StronglySorted (not_older (_parse_date parse)) articles ->
  StronglySorted (not_older (_parse_date parse)) res.
Proof.
  assert (forall a a', translated_from a a' ->
            _parse_date parse a' = _parse_date parse a) as Hkey.
  { intros a a' (_ & _ & _ & _ & Hp & _). unfold _parse_date. by rewrite Hp. }
  induction 1 as [|a a' l l' Ha Hl IH]; intros Hs; [constructor|].
  apply StronglySorted_cons in Hs as [Hall Hs].
  apply StronglySorted_cons. split; [|by apply IH].
  apply Forall_forall. intros y' Hy'.
  apply list_elem_of_lookup in Hy' as [i Hi].
  destruct (Forall2_lookup_r _ _ _ _ _ Hl Hi) as (y & Hy & Hyy).
  rewrite Forall_forall in Hall.
  pose proof (Hall y ltac:(apply list_elem_of_lookup; eauto)) as Hle.
  unfold not_older in *. by rewrite (Hkey _ _ Ha), (Hkey _ _ Hyy).
Qed.

Section Composition.
Variable json_loads : string -> decoded.
Variable TW : TWorld.

(** X20: translation keeps what the collector established: the
    normalized URLs, the absence of duplicates and the descending order
    of the publish-time keys. *)
Theorem translation_keeps_ranking (parse : string -> option datetime)
    (articles res : list Article) (delay : Q) (st st' : tstate) :
  translate_and_summarize json_loads TW articles delay st = (inr res, st') ->
  map normalized_url res = map normalized_url articles
  /\ (first_wins articles -> first_wins res)
  /\ (StronglySorted (not_older (_parse_date parse)) articles ->
      StronglySorted (not_older (_parse_date parse)) res).
Proof.
  intros H. apply translate_spec in H. rename H into Hf.
  split; [|split].
  - induction Hf as [|a a' l l' Ha Hl IH]; [reflexivity|].
    simpl. f_equal; [|exact IH].
    destruct Ha as (_ & _ & Hu & _). unfold normalized_url. by rewrite Hu.
  - by apply translated_first_wins.
  - by apply translated_sorted.
Qed.

End Composition.

Lemma call_result_well_formed_witness : well_formed sample_result.
Proof.
  apply (call_result_well_formed loads_sample (world_answering "{sample}")
           Sample.energy 3 2 tstate0 sample_call.2 sample_result).
  vm_compute. reflexivity.
Defined.

Lemma call_raises_after_last_attempt_witness :
  length (api_calls
            (_call_claude_with_retry loads_sample world_api_error
               Sample.energy 3 2 tstate0).2)
  = length (api_calls tstate0) + 3
  /\ messages_create world_api_error (length (api_calls tstate0) + 3 - 1)
       (_build_user_prompt Sample.energy) = APIError.
Proof.
  apply (call_raises_after_last_attempt loads_sample world_api_error
           Sample.energy 3 2 tstate0).
  vm_compute. reflexivity.
Defined.


Lemma translate_preserves_articles_witness :
  length sample_translated = length [Sample.energy; Sample.voc]
  /\ Forall2 translated_from [Sample.energy; Sample.voc] sample_translated.
Proof.
  apply (translate_preserves_articles loads_sample (world_answering "{sample}")
           [Sample.energy; Sample.voc] 1 tstate0 sample_translation.2).
  vm_compute. reflexivity.
Defined.

Lemma translation_keeps_ranking_witness :
  map normalized_url sample_translated
  = map normalized_url [Sample.energy; Sample.voc]
  /\ (first_wins [Sample.energy; Sample.voc] -> first_wins sample_translated)
  /\ (StronglySorted (not_older (_parse_date Iso.fromisoformat))
        [Sample.energy; Sample.voc] ->
      StronglySorted (not_older (_parse_date Iso.fromisoformat))
        sample_translated).
Proof.
  apply (translation_keeps_ranking loads_sample (world_answering "{sample}")
           Iso.fromisoformat [Sample.energy; Sample.voc] sample_translated 1
           tstate0 sample_translation.2).
  vm_compute. reflexivity.
Defined.

End TranslateFacts.

(** ** Category counts *)

Lemma count_category_cons a articles key :
  count_category (a :: articles) key
  = (if decide (category a = key) then 1 else 0) + count_category articles key.
Proof.
  unfold count_category. rewrite filter_cons. case_decide; reflexivity.
Qed.

Lemma sum_indicator (c : string) (keys : list string) :
  NoDup keys ->
  sum_list (map (fun key => if decide (c = key) then 1 else 0) keys)
  = if decide (c ∈ keys) then 1 else 0.
Proof.
  induction 1 as [|k keys Hk Hn IH]; cbn [map sum_list sum_list_with].
  - destruct (decide (c ∈ [])) as [H|H]; [|reflexivity].
    by apply not_elem_of_nil in H.
  - rewrite IH. destruct (decide (c = k)) as [->|Hne].
    + rewrite decide_False by exact Hk.
      rewrite decide_True by (by left). reflexivity.
    + destruct (decide (c ∈ keys)) as [Hin|Hnin].
      * rewrite decide_True by (by right). reflexivity.
      * rewrite decide_False; [reflexivity|].
        intros H. apply elem_of_cons in H as [?|?]; contradiction.
Qed.

Lemma sum_counts (articles : list Article) (keys : list string) :
  NoDup keys ->
  sum_list (map (count_category articles) keys)
  = length (filter (fun a => category a ∈ keys) articles).
Proof.
  intros Hn. induction articles as [|a articles IH].
  - simpl. induction keys; simpl; [reflexivity|].
    apply NoDup_cons in Hn as [_ Hn]. by rewrite IHkeys.
  - rewrite filter_cons.
    assert (sum_list (map (count_category (a :: articles)) keys)
            = (if decide (category a ∈ keys) then 1 else 0)
              + sum_list (map (count_category articles) keys)) as ->.
    { rewrite <- (sum_indicator (category a) keys Hn).
      clear. induction keys as [|k keys IH]; simpl; [reflexivity|].
      rewrite count_category_cons, IH. lia. }
    rewrite IH. case_decide; reflexivity.
Qed.

Lemma CATEGORIES_keys_NoDup : NoDup (Translate.CATEGORIES.*1).
Proof. apply (bool_decide_unpack _). vm_compute. exact I. Qed.

Lemma total_count_spec articles :
  total_count (_count_categories articles)
  = sum_list (map (count_category articles) (Translate.CATEGORIES.*1)).
Proof. reflexivity. Qed.

(** X21: [_count_categories] lists the keys of [CATEGORIES] in their
    order; its counts add up to the number of articles whose category is
    one of these keys, hence to the number of articles when every category
    is known, and never to more. *)
Theorem count_categories_total (articles : list Article) :
  map fst (_count_categories articles) = Translate.CATEGORIES.*1
  /\ total_count (_count_categories articles)
     = length (filter (fun a => Translate.in_CATEGORIES (category a) = true)
                 articles)
  /\ total_count (_count_categories articles) <= length articles
  /\ (Forall (fun a => Translate.in_CATEGORIES (category a) = true) articles ->
      total_count (_count_categories articles) = length articles).
Proof.
  assert (total_count (_count_categories articles)
          = length (filter (fun a => Translate.in_CATEGORIES (category a) = true)
                      articles)) as E.
  { rewrite total_count_spec, (sum_counts _ _ CATEGORIES_keys_NoDup).
    f_equal. apply list_filter_iff. intros a.
    unfold Translate.in_CATEGORIES. by rewrite bool_decide_eq_true. }
  split; [reflexivity|]. split; [exact E|]. split.
  - rewrite E. apply length_filter.
  - intros Hall. rewrite E. f_equal. clear E.
    induction Hall as [|a l Ha Hl IH]; [reflexivity|].
    rewrite filter_cons, decide_True by exact Ha. by rewrite IH.
Qed.

Section CountsAfterTranslation.
Variable json_loads : string -> Translate.decoded.
Variable TW : Translate.TWorld.

(** X22: after a translation that returns, the category counts of the
    report add up to the number of articles. *)
Theorem counts_cover_translated (articles res : list Article) (delay : Q)
    (st st' : Translate.tstate) :
  Translate.translate_and_summarize json_loads TW articles delay st
  = (inr res, st') ->
  total_count (_count_categories res) = length articles.
Proof.
  intros H. apply translate_spec in H.
  rewrite (Forall2_length _ _ _ H).
  assert (Forall (fun a => Translate.in_CATEGORIES (category a) = true) res)
    as Hall.
  { clear -H. induction H as [|a a' l l' Ha Hl IH]; constructor; [|exact IH].
    by destruct Ha as (_ & _ & _ & _ & _ & _ & Hc). }
  rewrite total_count_spec, (sum_counts _ _ CATEGORIES_keys_NoDup).
  clear H. induction Hall as [|a l Ha Hl IH]; [reflexivity|].
  rewrite filter_cons, decide_True; [cbn [length]; by rewrite IH|].
  unfold Translate.in_CATEGORIES in Ha. by apply bool_decide_eq_true in Ha.
Qed.

End CountsAfterTranslation.

Lemma counts_cover_translated_witness :
  total_count (_count_categories sample_translated)
  = length [Sample.energy; Sample.voc].
Proof.
  apply (counts_cover_translated loads_sample (world_answering "{sample}")
           [Sample.energy; Sample.voc] sample_translated 1 tstate0
           sample_translation.2).
  vm_compute. reflexivity.
Defined.

(** ** A sequence matched against itself *)
Section SelfMatch.
Import Difflib.
Variable x : seqT.

Lemma run_unfold j :
  run x j = if kept_at x j then S (run_before x j) else 0.
Proof. destruct j; simpl; destruct (kept_at x _); reflexivity. Qed.

Lemma run_le j : run x j <= S j.
Proof.
  induction j as [|j IH]; simpl.
  - destruct (kept_at x 0); lia.
  - destruct (kept_at x (S j)); lia.
Qed.

Lemma indices_from_spec s c b j :
  j ∈ indices_from s c b <-> exists j0, j = s + j0 /\ b !! j0 = Some c.
Proof.
  revert s. induction b as [|y b IH]; intros s; simpl.
  - split; [intros H; inversion H|intros (j0 & _ & H); discriminate].
  - destruct (Ascii.eqb_spec y c) as [->|Hne].
    + rewrite elem_of_cons, IH. split.
      * intros [->|(j0 & -> & H)]; [exists 0|exists (S j0)]; split; try lia; done.
      * intros ([|j0] & -> & H); [left; lia|right; exists j0; split; [lia|done]].
    + rewrite IH. split.
      * intros (j0 & -> & H). exists (S j0). split; [lia|done].
      * intros ([|j0] & -> & H); [simpl in H; congruence|].
        exists j0. split; [lia|done].
Qed.

Lemma indices_from_sorted s c b : StronglySorted Nat.lt (indices_from s c b).
Proof.
  revert s. induction b as [|y b IH]; intros s; simpl; [constructor|].
  destruct (Ascii.eqb y c); [|apply IH].
  constructor; [apply IH|].
  apply Forall_forall. intros j Hj.
  apply indices_from_spec in Hj as (j0 & -> & _). lia.
Qed.

Lemma b2j_spec c j :
  j ∈ b2j x c <-> x !! j = Some c /\ popular x c = false.
Proof.
  unfold b2j. destruct (popular x c) eqn:E.
  - split; [intros H; inversion H|intros [_ H]; discriminate].
  - rewrite indices_from_spec. split.
    + intros (j0 & -> & H). done.
    + intros [H _]. by exists j.
Qed.

Lemma b2j_sorted c : StronglySorted Nat.lt (b2j x c).
Proof. unfold b2j. destruct (popular x c); [constructor|apply indices_from_sorted]. Qed.

Section Row.
Variables (i : nat) (c : ascii) (m : gmap nat nat).
Hypothesis Hi : x !! i = Some c.
Hypothesis Hc : popular x c = false.
Hypothesis Hm : prev_inv x i m.

Lemma kept_here j : x !! j = Some c -> kept_at x j = true.
Proof. intros H. unfold kept_at. by rewrite H, Hc. Qed.

Lemma pred_bound j :
  x !! j = Some c ->
  j2len_get_pred m j + 1 <= run x i /\ j2len_get_pred m j + 1 <= run x j.
Proof.
  intros Hj. rewrite (run_unfold i), (run_unfold j).
  rewrite (kept_here i Hi), (kept_here j Hj).
  destruct Hm as [Hb _]. destruct j as [|j']; simpl; [lia|].
  destruct (m !! j') as [v|] eqn:E; simpl; [|lia].
  destruct (Hb j' v E). lia.
Qed.

Lemma step_other (done : bool) st j :
  x !! j = Some c -> j <> i -> (j < i \/ done = true) ->
  row_inv x i done st ->
  row_inv x i done (inner_step 0 (length x) i m st j).
Proof.
  intros Hj Hne Hord. destruct st as [new [[bi bj] bk]].
  intros (J1 & J2 & Hd & Hw & B2 & B3).
  unfold inner_step. simpl.
  pose proof (lookup_lt_Some _ _ _ Hj) as Hlt.
  replace (length x <=? j) with false by (symmetry; apply Nat.leb_gt; lia).
  destruct (pred_bound j Hj) as [Hk1 Hk2].
  assert (j2len_get_pred m j + 1 <= bk) as Hle.
  { destruct Hord as [Hji|Hdone].
    - specialize (B2 j Hji). lia.
    - specialize (B3 Hdone). lia. }
  replace (bk <? j2len_get_pred m j + 1) with false
    by (symmetry; apply Nat.ltb_ge; lia).
  unfold row_inv. split; [|split; [|done]].
  - intros j' v H. rewrite lookup_insert in H. case_decide; [|by eapply J1].
    injection H as <-. subst. by split.
  - intros Hdone. rewrite lookup_insert_ne by done. by apply J2.
Qed.

Lemma step_here st :
  row_inv x i false st -> row_inv x i true (inner_step 0 (length x) i m st i).
Proof.
  destruct st as [new [[bi bj] bk]].
  intros (J1 & _ & Hd & Hw & B2 & _).
  unfold inner_step. simpl.
  pose proof (lookup_lt_Some _ _ _ Hi) as Hlt.
  replace (length x <=? i) with false by (symmetry; apply Nat.leb_gt; lia).
  assert (j2len_get_pred m i + 1 = run x i) as Hk.
  { destruct Hm as [_ ->]. rewrite (run_unfold i), (kept_here i Hi). lia. }
  rewrite Hk. pose proof (run_le i) as Hr.
  assert (forall j v, <[i:=run x i]> new !! j = Some v ->
            v <= run x i /\ v <= run x j) as J1'.
  { intros j v H. rewrite lookup_insert in H. case_decide; [|by eapply J1].
    injection H as <-. subst. lia. }
  assert (<[i:=run x i]> new !! i = Some (run x i)) as J2'
    by (by rewrite lookup_insert_eq).
  destruct (bk <? run x i) eqn:E; unfold row_inv.
  - apply Nat.ltb_lt in E.
    split; [exact J1'|]. split; [done|]. split; [reflexivity|].
    split; [lia|]. split; [|done].
    intros r Hri. specialize (B2 r Hri). lia.
  - apply Nat.ltb_ge in E.
    split; [exact J1'|]. split; [done|]. split; [exact Hd|].
    split; [exact Hw|]. split; [exact B2|]. done.
Qed.

Lemma steps_other (done : bool) js st :
  Forall (fun j => x !! j = Some c /\ j <> i /\ (j < i \/ done = true)) js ->
  row_inv x i done st ->
  row_inv x i done (fold_left (inner_step 0 (length x) i m) js st).
Proof.
  revert st. induction js as [|j js IH]; intros st Hjs Hst; [exact Hst|].
  apply Forall_cons in Hjs as [(Hj & Hne & Hord) Hjs].
  simpl. apply IH; [exact Hjs|]. by apply step_other.
Qed.

Lemma row_done bst :
  best_inv x i bst ->
  row_inv x i true
    (fold_left (inner_step 0 (length x) i m) (b2j x c) (∅, bst)).
Proof.
  intros Hb.
  assert (i ∈ b2j x c) as Hin by (by apply b2j_spec).
  apply list_elem_of_split in Hin as (js1 & js2 & E).
  pose proof (b2j_sorted c) as Hs. rewrite E in Hs.
  apply StronglySorted_app in Hs as (Hlt1 & _ & Hs2).
  apply StronglySorted_cons in Hs2 as [Hlt2 _].
  assert (forall j, j ∈ b2j x c -> x !! j = Some c) as Hall
    by (intros j Hj; by apply b2j_spec in Hj as [? _]).
  rewrite E, fold_left_app. simpl.
  apply (steps_other true).
  - apply Forall_forall. intros j Hj.
    rewrite Forall_forall in Hlt2. specialize (Hlt2 j Hj).
    split; [apply Hall; rewrite E; set_solver|]. split; [lia|by right].
  - apply step_here. apply (steps_other false).
    + apply Forall_forall. intros j Hj.
      assert (j < i) by (apply (Hlt1 j i Hj); by left).
      split; [apply Hall; rewrite E; set_solver|]. split; [lia|by left].
    + destruct bst as [[bi bj] bk]. destruct Hb as (Hd & Hw & B2).
      unfold row_inv. split.
      { intros j v H. rewrite lookup_empty in H. discriminate. }
      split; [discriminate|]. split; [exact Hd|]. split; [lia|].
      split; [exact B2|discriminate].
Qed.

End Row.

Lemma outer_loop_self i m bst :
  i <= length x -> prev_inv x i m -> best_inv x i bst ->
  best_inv x (length x) (outer_loop x 0 (length x) (drop i x) i m bst).
Proof.
  remember (length x - i) as d eqn:Hd.
  revert i m bst Hd. induction d as [|d IH]; intros i m bst Hd Hle Hm Hb.
  - assert (i = length x) as -> by lia. rewrite drop_all. exact Hb.
  - destruct (x !! i) as [c|] eqn:Hi;
      [|apply lookup_ge_None in Hi; lia].
    rewrite (drop_S _ _ _ Hi). simpl outer_loop.
    destruct (popular x c) eqn:Hc.
    + unfold b2j. rewrite Hc. simpl. apply IH; [lia|lia| |].
      * assert (run x i = 0) as Hr
          by (rewrite run_unfold; unfold kept_at; by rewrite Hi, Hc).
        split; [intros j v H; rewrite lookup_empty in H; discriminate|].
        simpl. rewrite lookup_empty. simpl. by rewrite Hr.
      * destruct bst as [[bi bj] bk]. destruct Hb as (Hdg & Hw & B2).
        split; [exact Hdg|]. split; [lia|].
        intros r Hr. destruct (decide (r = i)) as [->|Hne].
        -- rewrite run_unfold. unfold kept_at. rewrite Hi, Hc. simpl. lia.
        -- apply B2. lia.
    + pose proof (row_done i c m Hi Hc Hm bst Hb) as Hrow.
      destruct (fold_left _ _ _) as [new [[bi bj] bk]].
      destruct Hrow as (J1 & J2 & Hdg & Hw & B2 & B3).
      apply IH; [lia|lia| |].
      * split.
        -- intros j v H. simpl. by apply J1.
        -- simpl. by rewrite (J2 eq_refl).
      * split; [exact Hdg|]. split; [exact Hw|].
        intros r Hr. destruct (decide (r = i)) as [->|Hne].
        -- by apply B3.
        -- apply B2. lia.
Qed.

Lemma at_eq_self j : j < length x -> at_eq x x j j = true.
Proof.
  intros H. unfold at_eq. destruct (x !! j) as [c|] eqn:E.
  - apply Ascii.eqb_refl.
  - apply lookup_ge_None in E. lia.
Qed.

Lemma extend_left_self fuel p k :
  p <= fuel -> p <= length x ->
  extend_left x x 0 0 fuel (p, p, k) = (0, 0, k + p).
Proof.
  revert p k. induction fuel as [|fuel IH]; intros p k Hf Hp.
  - assert (p = 0) as -> by lia. simpl. f_equal. lia.
  - simpl. destruct p as [|p].
    + simpl. f_equal. lia.
    + replace (0 <? S p) with true by (symmetry; by apply Nat.ltb_lt; lia).
      simpl. replace (p - 0) with p by lia.
      rewrite at_eq_self by lia. rewrite IH by lia. f_equal. lia.
Qed.

Lemma extend_right_self fuel k :
  length x - k <= fuel -> k <= length x ->
  extend_right x x (length x) (length x) fuel (0, 0, k) = (0, 0, length x).
Proof.
  revert k. induction fuel as [|fuel IH]; intros k Hf Hk.
  - assert (k = length x) as -> by lia. reflexivity.
  - simpl. destruct (k <? length x) eqn:E.
    + apply Nat.ltb_lt in E. simpl. rewrite at_eq_self by exact E.
      rewrite IH by lia. reflexivity.
    + apply Nat.ltb_ge in E. simpl. f_equal. lia.
Qed.

(** The longest match of [x] with itself is all of [x]. *)
Lemma find_longest_match_self :
  find_longest_match x x 0 (length x) 0 (length x) = (0, 0, length x).
Proof.
  unfold find_longest_match. rewrite Nat.sub_0_r, drop_0, firstn_all.
  assert (prev_inv x 0 ∅) as Hm.
  { split; [|reflexivity].
    intros j v Hv. rewrite lookup_empty in Hv. discriminate. }
  assert (best_inv x 0 (0, 0, 0)) as Hb.
  { split; [reflexivity|]. split; [lia|]. intros r Hr. inversion Hr. }
  pose proof (outer_loop_self 0 ∅ (0, 0, 0) (Nat.le_0_l _) Hm Hb) as H.
  rewrite drop_0 in H.
  destruct (outer_loop x 0 (length x) x 0 ∅ (0, 0, 0)) as [[bi bj] bk].
  destruct H as (<- & Hw & _).
  rewrite Nat.sub_0_r, extend_left_self by lia.
  rewrite extend_right_self by lia. reflexivity.
Qed.

Lemma matches_self : matches x x = length x.
Proof.
  unfold matches. cbn [matches_in]. rewrite find_longest_match_self.
  destruct (length x =? 0) eqn:E; [apply Nat.eqb_eq in E; lia|].
  rewrite Nat.ltb_irrefl. simpl. rewrite Nat.ltb_irrefl. simpl. lia.
Qed.

Lemma ratio_self_reaches_threshold :
  Qle_bool default_threshold (ratio x x) = true.
Proof.
  unfold ratio. rewrite matches_self.
  destruct (length x + length x =? 0) eqn:E; [reflexivity|].
  apply Nat.eqb_neq in E. unfold default_threshold, Qle_bool.
  cbn [Qnum Qden]. apply Z.leb_le.
  rewrite <- (positive_nat_Z (Pos.of_nat _)), Nat2Pos.id by exact E.
  lia.
Qed.

End SelfMatch.

(** ** Equal titles *)

Lemma equal_titles_are_similar title_a title_b :
  PyStr.lower title_a = PyStr.lower title_b ->
  _is_similar_title title_a title_b default_threshold = true.
Proof.
  intros H. unfold _is_similar_title. rewrite H.
  apply ratio_self_reaches_threshold.
Qed.

(** X5: titles that are equal up to letter case are similar, whatever
    their length, so an article that repeats the title of an accepted
    article is dropped. *)
Theorem dedup_equal_title_dropped (l : list Article) (a b : Article) :
  a ∈ _deduplicate_articles l ->
  PyStr.lower (title b) = PyStr.lower (title a) ->
  _is_similar_title (title b) (title a) default_threshold = true
  /\ _deduplicate_articles (l ++ [b]) = _deduplicate_articles l.
Proof.
  intros Ha Ht. pose proof (equal_titles_are_similar _ _ Ht) as Hs.
  split; [exact Hs|].
  destruct (dedup_snoc_cases l b) as [[H _]|(_ & _ & Hd)]; [exact H|].
  rewrite (proj1 (is_duplicate_false _ _) Hd a Ha) in Hs. discriminate.
Qed.

Lemma dedup_equal_title_dropped_witness :
  _is_similar_title (title energy_capitals) (title Sample.energy)
    default_threshold = true
  /\ _deduplicate_articles ([Sample.energy] ++ [energy_capitals])
     = _deduplicate_articles [Sample.energy].
Proof.
  apply (dedup_equal_title_dropped [Sample.energy] Sample.energy
           energy_capitals).
  - vm_compute. by left.
  - vm_compute. reflexivity.
Defined.

(** ** More on fetching *)

Lemma build_articles_unreadable raw_articles acc raw :
  raw ∈ raw_articles -> _is_valid_article raw = true ->
  raw_source raw = SourceNotObject ->
  build_articles raw_articles acc = inl AttributeError.
Proof.
  intros Hin Hv Hs. destruct (build_articles raw_articles acc) as [e|res] eqn:E.
  - by apply build_articles_inl in E as [-> _].
  - exfalso. apply build_articles_inr in E as (arts & _ & Hf).
    assert (raw ∈ filter (fun raw => _is_valid_article raw = true) raw_articles)
      as Hin' by (apply list_elem_of_filter; by split).
    apply list_elem_of_lookup in Hin' as [k Hk].
    destruct (Forall2_lookup_l _ _ _ _ _ Hf Hk) as (a & _ & Hm & _).
    unfold make_article, source_name in Hm. rewrite Hs in Hm.
    destruct (subscript (raw_title raw)); [discriminate|].
    destruct (subscript (raw_url raw)); discriminate.
Qed.

(** X11: a reply without error status whose body is a JSON object with
    status "ok".  With no [articles] key the fetch returns the empty list;
    with [articles] null it raises [TypeError]; with a list of items it
    returns one article per item that passes the filter, in the order of
    the items, when each of these has a [source] that is missing or an
    object, and raises [AttributeError] when one of them has not.  In each
    case it logs its one request. *)
Theorem fetch_success (W : World) (query from_date to_date : string)
    (page_size : nat) (log : list Request) (status_code : Z)
    (data : JsonBody) :
  requests_get W NEWSAPI_BASE_URL
    (build_params W query from_date to_date page_size)
  = Response status_code (BodyObject data) ->
  raise_for_status status_code = false ->
  body_status data = Str "ok" ->
  (body_articles data = ArticlesAbsent ->
   _fetch_articles_for_query W query from_date to_date page_size log
   = (inr [], log ++ [build_params W query from_date to_date page_size]))
  /\ (body_articles data = ArticlesNull ->
      _fetch_articles_for_query W query from_date to_date page_size log
      = (inl TypeError,
         log ++ [build_params W query from_date to_date page_size]))
  /\ (forall raw_articles,
        body_articles data = ArticlesList raw_articles ->
        (sources_readable raw_articles ->
         exists articles,
           _fetch_articles_for_query W query from_date to_date page_size log
           = (inr articles,
              log ++ [build_params W query from_date to_date page_size])
           /\ Forall2 built_from
                (filter (fun raw => _is_valid_article raw = true)
                        raw_articles)
                articles)
        /\ (forall raw, raw ∈ raw_articles ->
              _is_valid_article raw = true ->
              raw_source raw = SourceNotObject ->
              _fetch_articles_for_query W query from_date to_date page_size
                log
              = (inl AttributeError,
                 log ++ [build_params W query from_date to_date page_size]))).
Proof.
  intros Hr Hs Hok.
  assert (_fetch_articles_for_query W query from_date to_date page_size log
          = (match body_articles data with
             | ArticlesAbsent => inr []
             | ArticlesNull => inl TypeError
             | ArticlesList raw_articles => build_articles raw_articles []
             end,
             log ++ [build_params W query from_date to_date page_size]))
    as ->.
  { unfold _fetch_articles_for_query, bind, http_get, ret, lift.
    rewrite Hr, Hs. unfold parse_body.
    rewrite bool_decide_false by (intros H; by apply H).
    destruct (body_articles data); reflexivity. }
  split; [by intros ->|]. split; [by intros ->|].
  intros raws ->. split.
  - intros Hread.
    destruct (build_articles_readable raws [] Hread) as (arts & -> & Hf).
    by exists arts.
  - intros raw Hin Hv Hsrc.
    by rewrite (build_articles_unreadable raws [] raw Hin Hv Hsrc).
Qed.

Lemma fetch_success_witness :
  (body_articles (Sample.ok_data [Sample.raw_of Sample.energy])
   = ArticlesAbsent ->
   _fetch_articles_for_query world_two_groups
     (any_of "paint booth" "spray booth" "coating booth")
     "2024-03-01" "2024-03-08" 10 []
   = (inr [],
      [] ++ [build_params world_two_groups
               (any_of "paint booth" "spray booth" "coating booth")
               "2024-03-01" "2024-03-08" 10]))
  /\ (body_articles (Sample.ok_data [Sample.raw_of Sample.energy])
      = ArticlesNull ->
      _fetch_articles_for_query world_two_groups
        (any_of "paint booth" "spray booth" "coating booth")
        "2024-03-01" "2024-03-08" 10 []
      = (inl TypeError,
         [] ++ [build_params world_two_groups
                  (any_of "paint booth" "spray booth" "coating booth")
                  "2024-03-01" "2024-03-08" 10]))
  /\ (forall raw_articles,
        body_articles (Sample.ok_data [Sample.raw_of Sample.energy])
        = ArticlesList raw_articles ->
        (sources_readable raw_articles ->
         exists articles,
           _fetch_articles_for_query world_two_groups
             (any_of "paint booth" "spray booth" "coating booth")
             "2024-03-01" "2024-03-08" 10 []
           = (inr articles,
              [] ++ [build_params world_two_groups
                       (any_of "paint booth" "spray booth" "coating booth")
                       "2024-03-01" "2024-03-08" 10])
           /\ Forall2 built_from
                (filter (fun raw => _is_valid_article raw = true)
                        raw_articles)
                articles)
        /\ (forall raw, raw ∈ raw_articles ->
              _is_valid_article raw = true ->
              raw_source raw = SourceNotObject ->
              _fetch_articles_for_query world_two_groups
                (any_of "paint booth" "spray booth" "coating booth")
                "2024-03-01" "2024-03-08" 10 []
              = (inl AttributeError,
                 [] ++ [build_params world_two_groups
                          (any_of "paint booth" "spray booth" "coating booth")
                          "2024-03-01" "2024-03-08" 10]))).
Proof.
  apply (fetch_success world_two_groups
           (any_of "paint booth" "spray booth" "coating booth")
           "2024-03-01" "2024-03-08" 10 [] 200
           (Sample.ok_data [Sample.raw_of Sample.energy])).
  - vm_compute. reflexivity.
  - reflexivity.
  - reflexivity.
Defined.

(** The article of the first group is kept, its copy from the second
    group dropped. *)
Example two_groups_first_wins :
  (collect_news Iso.fromisoformat world_two_groups []).1
  = inr [Sample.energy].
Proof. vm_compute. reflexivity. Qed.
